(** * Black-Scholes vanilla options: prices and Greeks

    A shallow embedding of [torch_qf/options/black-scholes/vanilla_option.py]
    and the properties of its two entry points, [get_vanilla_prices] and
    [get_vanilla_greeks].

    The Python code works on torch tensors and leaves every elementwise
    primitive (arithmetic, [exp], [log], [sqrt], the normal CDF of scipy) to
    its numeric libraries.  The embedding does the same: the program is
    written once over an interface [NumLib] of these primitives, so every
    statement proved over the interface holds for whatever arithmetic
    implements it.  Statements that need the laws of arithmetic are proved
    for the instance [RealLib] over the real numbers.

    Python behaviour that the claims depend on is modelled explicitly:
    optional keyword arguments are [option]s, a local variable that no
    executed assignment has bound is [None] and reading it raises
    [UnboundLocalError], [None * tensor] raises [TypeError], a shape
    mismatch raises [RuntimeError], and a call that runs off the end of the
    function returns Python's [None]. *)

From Stdlib Require Import ZArith QArith Qreals Reals Lra String List Bool Lia.
From stdpp Require Import base option list strings.

Local Open Scope string_scope.

(** ** Exceptions and results *)

Inductive exn : Type :=
  | ValueError (msg : string)
  | UnboundLocalError (var : string)
  | TypeError
  | RuntimeError.

Inductive result (T : Type) : Type :=
  | Ok (v : T)
  | Raise (e : exn).
Arguments Ok {T} v.
Arguments Raise {T} e.

Definition bind {T U : Type} (m : result T) (k : T -> result U) : result U :=
  match m with
  | Ok v => k v
  | Raise e => Raise e
  end.

Declare Scope result_scope.
Notation "x ← y ; z" := (bind y (fun x => z))
  (at level 20, y at level 100, z at level 200, only parsing) : result_scope.
Notation "' x ← y ; z" := (bind y (fun x => z))
  (at level 20, x pattern, y at level 100, z at level 200, only parsing) : result_scope.
Open Scope result_scope.

Definition is_ValueError {T} (m : result T) : bool :=
  match m with Raise (ValueError _) => true | _ => false end.

(** ** Python values of the option-type flag *)

Inductive pyval : Type :=
  | PyBool (b : bool)
  | PyInt (z : Z)
  | PyStr (s : string)
  | PyNone.

(** [x == True] and [x == False]: a [bool] is an [int] in Python, so [1]
    equals [True] and [0] equals [False]; strings and [None] equal neither. *)
Definition py_eq_True (x : pyval) : bool :=
  match x with
  | PyBool b => b
  | PyInt z => (z =? 1)%Z
  | _ => false
  end.

Definition py_eq_False (x : pyval) : bool :=
  match x with
  | PyBool b => negb b
  | PyInt z => (z =? 0)%Z
  | _ => false
  end.

(** [x is None] and [x is not None] on an optional keyword argument. *)
Definition is_None {T} (x : option T) : bool :=
  match x with None => true | Some _ => false end.
Definition is_not_None {T} (x : option T) : bool := negb (is_None x).

(** Reading a local variable: unbound locals raise. *)
Definition read_local {T} (name : string) (x : option T) : result T :=
  match x with
  | Some v => Ok v
  | None => Raise (UnboundLocalError name)
  end.

(** ** The numeric library *)

Class NumLib (A : Type) : Type := {
  lit : Q -> A;            (* a Python numeric literal as a tensor element *)
  nadd : A -> A -> A;
  nsub : A -> A -> A;
  nmul : A -> A -> A;
  ndiv : A -> A -> A;
  nneg : A -> A;
  npow : A -> Z -> A;      (* [x ** k] *)
  nexp : A -> A;           (* [torch.exp] *)
  nlog : A -> A;           (* [torch.log] *)
  nsqrt : A -> A;          (* [torch.sqrt] *)
  ncdf : A -> A            (* [scipy.stats.norm.cdf] *)
}.

(** Line 9: [pi = 3.14159265359]. *)
Definition pi {A} `{NumLib A} : A := lit 3.14159265359%Q.

(** A one-dimensional tensor, one entry per option of the batch. *)
Definition tensor (A : Type) : Type := list A.

(** An expression over tensors evaluates to a tensor or raises. *)
Definition texpr (A : Type) : Type := result (tensor A).

Definition tvar {A : Type} (t : tensor A) : texpr A := Ok t.

(** [tab n f] is the batch of [n] elements whose [i]-th element is [f i]. *)
Definition tab {A : Type} (n : nat) (f : nat -> A) : tensor A := f <$> seq 0 n.

Section Tensors.
Context {A : Type} `{NumLib A}.

(** Elementwise binary operation on two tensors, with torch's broadcasting
    rule for one dimension: equal sizes, or one of the sizes is 1. *)
Definition broadcast (op : A -> A -> A) (x y : tensor A) : texpr A :=
  if (length x =? length y)%nat then Ok (zip_with op x y)
  else match x, y with
       | [a], _ => Ok (op a <$> y)
       | _, [b] => Ok ((fun a => op a b) <$> x)
       | _, _ => Raise RuntimeError
       end.

(** Operands are evaluated left to right, then combined. *)
Definition lift2 (op : A -> A -> A) (x y : texpr A) : texpr A :=
  a ← x; b ← y; broadcast op a b.

Definition lift1 (op : A -> A) (x : texpr A) : texpr A :=
  a ← x; Ok (op <$> a).

Definition t_add : texpr A -> texpr A -> texpr A := lift2 nadd.
Definition t_sub : texpr A -> texpr A -> texpr A := lift2 nsub.
Definition t_mul : texpr A -> texpr A -> texpr A := lift2 nmul.
Definition t_div : texpr A -> texpr A -> texpr A := lift2 ndiv.
Definition t_neg : texpr A -> texpr A := lift1 nneg.

(** A Python scalar on one side. *)
Definition t_div_scalar (x : texpr A) (c : A) : texpr A := lift1 (fun a => ndiv a c) x.
Definition t_sub_scalar (x : texpr A) (c : A) : texpr A := lift1 (fun a => nsub a c) x.
Definition scalar_mul_t (c : A) (x : texpr A) : texpr A := lift1 (nmul c) x.
Definition t_pow (x : texpr A) (k : Z) : texpr A := lift1 (fun a => npow a k) x.

Definition torch_exp : texpr A -> texpr A := lift1 nexp.
Definition torch_log : texpr A -> texpr A := lift1 nlog.
Definition torch_sqrt : texpr A -> texpr A := lift1 nsqrt.
(** [torch.Tensor(norm.cdf(x))] *)
Definition norm_cdf : texpr A -> texpr A := lift1 ncdf.

(** [torch.zeros_like(t)] *)
Definition zeros_like (t : tensor A) : tensor A := (fun _ => lit 0%Q) <$> t.

(** [torch.Tensor(x)] for a keyword argument [x]: a tensor is taken as it
    is, [None] is no tensor data. *)
Definition torch_Tensor (x : option (tensor A)) : texpr A :=
  match x with
  | Some t => Ok t
  | None => Raise TypeError
  end.

(** A keyword argument used as an operand: [None] supports no arithmetic. *)
Definition operand (x : option (tensor A)) : texpr A :=
  match x with
  | Some t => Ok t
  | None => Raise TypeError
  end.
End Tensors.

Coercion tvar : tensor >-> texpr.

Arguments tab : simpl never.
Arguments broadcast : simpl never.
Arguments lift2 : simpl never.
Arguments lift1 : simpl never.

Declare Scope torch_scope.
Delimit Scope torch_scope with T.
Bind Scope torch_scope with texpr.
Notation "x + y" := (t_add x y) : torch_scope.
Notation "x - y" := (t_sub x y) : torch_scope.
Notation "x * y" := (t_mul x y) : torch_scope.
Notation "x / y" := (t_div x y) : torch_scope.
Notation "- x" := (t_neg x) : torch_scope.
Notation "x /. c" := (t_div_scalar x c) (at level 40, left associativity) : torch_scope.
Notation "x -. c" := (t_sub_scalar x c) (at level 50, left associativity) : torch_scope.
Notation "c .* x" := (scalar_mul_t c x) (at level 40, left associativity) : torch_scope.
Notation "x ** k" := (t_pow x k) (at level 30, right associativity) : torch_scope.

(** ** Keyword arguments *)

Record kwargs (A : Type) : Type := Kwargs {
  strikes : tensor A;
  volatilities : tensor A;
  expiries : tensor A;
  spots : option (tensor A);
  forwards : option (tensor A);
  discount_rates : option (tensor A);
  continuous_dividends : option (tensor A);
  cost_of_carries : option (tensor A);
  discount_factors : option (tensor A);
  is_call_options : pyval
}.
Arguments Kwargs {A}.
Arguments strikes {A}.
Arguments volatilities {A}.
Arguments expiries {A}.
Arguments spots {A}.
Arguments forwards {A}.
Arguments discount_rates {A}.
Arguments continuous_dividends {A}.
Arguments cost_of_carries {A}.
Arguments discount_factors {A}.
Arguments is_call_options {A}.

(** ** The two entry points *)

Section Program.
Context {A : Type} `{NumLib A}.

(** The local variables that are live after the normalisation of the market
    parameters (lines 32-61 and 99-128).  [t_spots] is the one local that
    an execution path can leave unbound. *)
Record locals : Type := Locals {
  t_strikes : tensor A;
  t_volatilities : tensor A;
  t_expiries : tensor A;
  t_discount_rates : tensor A;
  t_cost_of_carries : tensor A;
  t_discount_factors : tensor A;
  t_forwards : tensor A;
  t_spots : option (tensor A)
}.

(** Lines 25-30 and, with the same text, 92-97. *)
Definition check_exclusive (a : kwargs A) : result unit :=
  if eqb (is_None (spots a)) (is_None (forwards a)) then
    Raise (ValueError "Either spots or forwards must be supplied but not both.")
  else if is_not_None (discount_rates a) && is_not_None (discount_factors a) then
    Raise (ValueError "At most one of discount_rates and discount_factors may be supplied")
  else if is_not_None (continuous_dividends a) && is_not_None (cost_of_carries a) then
    Raise (ValueError "At most one of continuous_dividends and cost_of_carries may be supplied")
  else Ok tt.

(** Lines 32-54 and, with the same text, 99-121: everything up to the
    discount factors.  [t_continuous_dividends] is assigned only when
    [continuous_dividends] is [None] (lines 43-44); there is no [else]. *)
Definition resolve_rates (a : kwargs A) : result (tensor A * tensor A * tensor A * tensor A * tensor A * tensor A) :=
  let t_strikes : tensor A := strikes a in
  let t_volatilities : tensor A := volatilities a in
  let t_expiries : tensor A := expiries a in
  t_discount_rates ←
    match discount_rates a with
    | Some r => Ok r
    | None =>
        match discount_factors a with
        | Some f => (- torch_log (tvar f) / tvar (expiries a))%T
        | None => Ok (zeros_like t_volatilities)
        end
    end;
  let t_continuous_dividends : option (tensor A) :=
    match continuous_dividends a with
    | None => Some (zeros_like t_volatilities)
    | Some _ => None
    end in
  t_cost_of_carries ←
    match cost_of_carries a with
    | Some c => Ok c
    | None =>
        (tvar t_discount_rates - read_local "t_continuous_dividends" t_continuous_dividends)%T
    end;
  t_discount_factors ←
    match discount_factors a with
    | Some f => Ok f
    | None => torch_exp (- t_discount_rates * t_expiries)%T
    end;
  Ok (t_strikes, t_volatilities, t_expiries, t_discount_rates, t_cost_of_carries,
      t_discount_factors).

(** Lines 32-61 of [get_vanilla_prices].  Line 58 is an expression
    statement whose left operand [t_spots] has not been assigned. *)
Definition prices_locals (a : kwargs A) : result locals :=
  '(t_strikes, t_volatilities, t_expiries, t_discount_rates, t_cost_of_carries,
    t_discount_factors) ← resolve_rates a;
  match forwards a with
  | Some f =>
      let t_forwards : tensor A := f in
      let t_spots : option (tensor A) := None in
      _ ← (read_local "t_spots" t_spots * torch_exp (- t_cost_of_carries * t_expiries))%T;
      Ok (Locals t_strikes t_volatilities t_expiries t_discount_rates
                 t_cost_of_carries t_discount_factors t_forwards t_spots)
  | None =>
      t_spots ← torch_Tensor (spots a);
      t_forwards ← (tvar t_spots * torch_exp (t_cost_of_carries * t_expiries))%T;
      Ok (Locals t_strikes t_volatilities t_expiries t_discount_rates
                 t_cost_of_carries t_discount_factors t_forwards (Some t_spots))
  end.

(** Lines 63-64, repeated verbatim in every branch of the Greeks. *)
Definition sqrt_var_of (l : locals) : texpr A :=
  (t_volatilities l * torch_sqrt (t_expiries l))%T.

Definition d1_of (l : locals) (t_sqrt_var : tensor A) : texpr A :=
  ((torch_log (t_forwards l / t_strikes l) + t_sqrt_var * t_sqrt_var /. lit 2)
   / t_sqrt_var)%T.

(** Lines 63-72. *)
Definition prices_kernel (a : kwargs A) (l : locals) : texpr A :=
  t_sqrt_var ← sqrt_var_of l;
  d1 ← d1_of l t_sqrt_var;
  d2 ← (tvar d1 - t_sqrt_var)%T;
  t_undiscounted_calls ←
    (t_forwards l * norm_cdf d1 - t_strikes l * norm_cdf d2)%T;
  if py_eq_True (is_call_options a) then
    (t_discount_factors l * t_undiscounted_calls)%T
  else
    t_undiscounted_forward ← (t_forwards l - t_strikes l)%T;
    t_undiscounted_puts ← (tvar t_undiscounted_calls - t_undiscounted_forward)%T;
    (operand (discount_factors a) * t_undiscounted_puts)%T.

Definition get_vanilla_prices (a : kwargs A) : texpr A :=
  _ ← check_exclusive a;
  l ← prices_locals a;
  prices_kernel a l.

(** Lines 99-128 of [get_vanilla_greeks].  Line 125 assigns [t_spots]. *)
Definition greeks_locals (a : kwargs A) : result locals :=
  '(t_strikes, t_volatilities, t_expiries, t_discount_rates, t_cost_of_carries,
    t_discount_factors) ← resolve_rates a;
  match forwards a with
  | Some f =>
      let t_forwards : tensor A := f in
      t_spots ← (tvar t_forwards * torch_exp (- t_cost_of_carries * t_expiries))%T;
      Ok (Locals t_strikes t_volatilities t_expiries t_discount_rates
                 t_cost_of_carries t_discount_factors t_forwards (Some t_spots))
  | None =>
      t_spots ← torch_Tensor (spots a);
      t_forwards ← (tvar t_spots * torch_exp (t_cost_of_carries * t_expiries))%T;
      Ok (Locals t_strikes t_volatilities t_expiries t_discount_rates
                 t_cost_of_carries t_discount_factors t_forwards (Some t_spots))
  end.

(** Line 90: [greek not in ['delta', 'gamma', 'theta', 'vega', 'rho']]. *)
Definition greek_names : list string := ["delta"; "gamma"; "theta"; "vega"; "rho"].
Definition known_greek (greek : string) : bool :=
  existsb (String.eqb greek) greek_names.

(** [torch.exp(-d1 ** 2 / 2)]: the power binds tighter than the sign. *)
Definition exp_half_sq (d1 : tensor A) : texpr A :=
  torch_exp ((- (d1 ** 2)) /. lit 2)%T.

(** [torch.sqrt(2 * pi * (t_expiries))] *)
Definition sqrt_two_pi_t (l : locals) : texpr A :=
  torch_sqrt (nmul (lit 2) pi .* t_expiries l)%T.

(** Lines 131-159, the body of [if is_call_options == True:].  [None] means
    that no [if greek == ...] matched and control leaves the block. *)
Definition call_greeks (greek : string) (l : locals) : result (option (tensor A)) :=
  if String.eqb greek "delta" then
    t_sqrt_var ← sqrt_var_of l;
    d1 ← d1_of l t_sqrt_var;
    delta ← norm_cdf d1;
    Ok (Some delta)
  else if String.eqb greek "gamma" then
    t_sqrt_var ← sqrt_var_of l;
    d1 ← d1_of l t_sqrt_var;
    gamma ← (exp_half_sq d1
             / (sqrt_two_pi_t l * read_local "t_spots" (t_spots l) * t_volatilities l))%T;
    Ok (Some gamma)
  else if String.eqb greek "theta" then
    t_sqrt_var ← sqrt_var_of l;
    d1 ← d1_of l t_sqrt_var;
    d2 ← (tvar d1 - t_sqrt_var)%T;
    theta ← (read_local "t_spots" (t_spots l) * t_volatilities l * exp_half_sq d1
               / sqrt_two_pi_t l
             - t_cost_of_carries l * t_strikes l
               * torch_exp (- t_cost_of_carries l * t_expiries l) * norm_cdf d2)%T;
    Ok (Some theta)
  else if String.eqb greek "vega" then
    t_sqrt_var ← sqrt_var_of l;
    d1 ← d1_of l t_sqrt_var;
    vega ← (read_local "t_spots" (t_spots l) * torch_sqrt (t_expiries l)
            * exp_half_sq d1)%T;
    Ok (Some vega)
  else if String.eqb greek "rho" then
    t_sqrt_var ← sqrt_var_of l;
    d1 ← d1_of l t_sqrt_var;
    d2 ← (tvar d1 - t_sqrt_var)%T;
    rho ← (t_strikes l * t_expiries l
           * torch_exp (- t_cost_of_carries l * t_expiries l) * norm_cdf d2)%T;
    Ok (Some rho)
  else Ok None.

(** Lines 162-190, the body of [if is_call_options == False:]. *)
Definition put_greeks (greek : string) (l : locals) : result (option (tensor A)) :=
  if String.eqb greek "delta" then
    t_sqrt_var ← sqrt_var_of l;
    d1 ← d1_of l t_sqrt_var;
    delta ← (norm_cdf d1 -. lit 1)%T;
    Ok (Some delta)
  else if String.eqb greek "gamma" then
    t_sqrt_var ← sqrt_var_of l;
    d1 ← d1_of l t_sqrt_var;
    gamma ← (exp_half_sq d1
             / (sqrt_two_pi_t l * read_local "t_spots" (t_spots l) * t_volatilities l))%T;
    Ok (Some gamma)
  else if String.eqb greek "theta" then
    t_sqrt_var ← sqrt_var_of l;
    d1 ← d1_of l t_sqrt_var;
    d2 ← (tvar d1 - t_sqrt_var)%T;
    theta ← (- read_local "t_spots" (t_spots l) * t_volatilities l * exp_half_sq d1
               / sqrt_two_pi_t l
             + t_cost_of_carries l * t_strikes l
               * torch_exp (- t_cost_of_carries l * t_expiries l) * norm_cdf (- d2))%T;
    Ok (Some theta)
  else if String.eqb greek "vega" then
    t_sqrt_var ← sqrt_var_of l;
    d1 ← d1_of l t_sqrt_var;
    vega ← (read_local "t_spots" (t_spots l) * torch_sqrt (t_expiries l)
            * exp_half_sq d1)%T;
    Ok (Some vega)
  else if String.eqb greek "rho" then
    t_sqrt_var ← sqrt_var_of l;
    d1 ← d1_of l t_sqrt_var;
    d2 ← (tvar d1 - t_sqrt_var)%T;
    rho ← (- t_strikes l * t_expiries l
           * torch_exp (- t_cost_of_carries l * t_expiries l) * norm_cdf (- d2))%T;
    Ok (Some rho)
  else Ok None.

(** Lines 130-192.  The [else] of line 191 belongs to the second [if]: it is
    taken whenever [is_call_options == False] does not hold, also after the
    first block was entered and left without a [return].  A put block left
    without a [return] ends the function, which then returns [None]. *)
Definition greeks_kernel (greek : string) (is_call : pyval) (l : locals)
  : result (option (tensor A)) :=
  r ← (if py_eq_True is_call then call_greeks greek l else Ok None);
  match r with
  | Some v => Ok (Some v)
  | None =>
      if py_eq_False is_call then put_greeks greek l
      else Raise (ValueError "Variable 'is_call_options' can only be Booleans ")
  end.

Definition get_vanilla_greeks (greek : string) (a : kwargs A)
  : result (option (tensor A)) :=
  if negb (known_greek greek) then
    Raise (ValueError "Input greek should be one of 'delta','gamma','theta','vega','rho'")
  else
    _ ← check_exclusive a;
    l ← greeks_locals a;
    greeks_kernel greek (is_call_options a) l.

End Program.

Arguments locals : clear implicits.

(** The same call with another [is_call_options]. *)
Definition with_flag {A : Type} (a : kwargs A) (flag : pyval) : kwargs A :=
  Kwargs (strikes a) (volatilities a) (expiries a) (spots a) (forwards a)
         (discount_rates a) (continuous_dividends a) (cost_of_carries a)
         (discount_factors a) flag.


(** ** The closed forms, per option

    Section 3 of the specification describes the canonical market
    parameters, one quantity per option of the batch, and sections 4.2 and
    4.3 the closed forms over them.  They are stated here over the same
    numeric interface as the program. *)

Section Spec.
Context {A : Type} `{NumLib A}.

(** The canonical parameters of one option. *)
Record canon : Type := Canon {
  strike : A;
  volatility : A;
  expiry : A;
  discount_rate : A;
  cost_of_carry : A;
  discount_factor : A;
  forward : A;
  spot : A
}.

Definition sqrt_var (c : canon) : A := nmul (volatility c) (nsqrt (expiry c)).

Definition d1 (c : canon) : A :=
  ndiv (nadd (nlog (ndiv (forward c) (strike c)))
             (ndiv (nmul (sqrt_var c) (sqrt_var c)) (lit 2)))
       (sqrt_var c).

Definition d2 (c : canon) : A := nsub (d1 c) (sqrt_var c).

Definition undiscounted_call (c : canon) : A :=
  nsub (nmul (forward c) (ncdf (d1 c))) (nmul (strike c) (ncdf (d2 c))).

Definition undiscounted_put (c : canon) : A :=
  nsub (undiscounted_call c) (nsub (forward c) (strike c)).

Definition call_price (c : canon) : A := nmul (discount_factor c) (undiscounted_call c).

Definition put_price (c : canon) : A := nmul (discount_factor c) (undiscounted_put c).

(** [exp(-x^2/2)], the normal density without its constant, and the
    [sqrt(2 pi t)] of the program, with the program's constant [pi]. *)
Definition exp_half_square (x : A) : A := nexp (ndiv (nneg (npow x 2)) (lit 2)).
Definition sqrt_two_pi (t : A) : A := nsqrt (nmul (nmul (lit 2) pi) t).

Definition carry_term (c : canon) : A :=
  nmul (nmul (cost_of_carry c) (strike c))
       (nexp (nmul (nneg (cost_of_carry c)) (expiry c))).

(** What each [return] of [get_vanilla_greeks] yields for one option. *)
Definition delta_call (c : canon) : A := ncdf (d1 c).
Definition delta_put (c : canon) : A := nsub (ncdf (d1 c)) (lit 1).
Definition gamma_value (c : canon) : A :=
  ndiv (exp_half_square (d1 c))
       (nmul (nmul (sqrt_two_pi (expiry c)) (spot c)) (volatility c)).
Definition vega_value (c : canon) : A :=
  nmul (nmul (spot c) (nsqrt (expiry c))) (exp_half_square (d1 c)).
Definition theta_call (c : canon) : A :=
  nsub (ndiv (nmul (nmul (spot c) (volatility c)) (exp_half_square (d1 c)))
             (sqrt_two_pi (expiry c)))
       (nmul (carry_term c) (ncdf (d2 c))).
Definition theta_put (c : canon) : A :=
  nadd (ndiv (nmul (nmul (nneg (spot c)) (volatility c)) (exp_half_square (d1 c)))
             (sqrt_two_pi (expiry c)))
       (nmul (carry_term c) (ncdf (nneg (d2 c)))).
Definition rho_call (c : canon) : A :=
  nmul (nmul (nmul (strike c) (expiry c))
             (nexp (nmul (nneg (cost_of_carry c)) (expiry c))))
       (ncdf (d2 c)).
Definition rho_put (c : canon) : A :=
  nmul (nmul (nmul (nneg (strike c)) (expiry c))
             (nexp (nmul (nneg (cost_of_carry c)) (expiry c))))
       (ncdf (nneg (d2 c))).

Definition greek_value (greek : string) (is_call : bool) (c : canon) : A :=
  if String.eqb greek "delta" then (if is_call then delta_call c else delta_put c)
  else if String.eqb greek "gamma" then gamma_value c
  else if String.eqb greek "theta" then (if is_call then theta_call c else theta_put c)
  else if String.eqb greek "vega" then vega_value c
  else if is_call then rho_call c else rho_put c.

(** A batch as the caller quotes it: option [i] of every supplied input. *)
Record market : Type := Market {
  m_strikes : nat -> A;
  m_volatilities : nat -> A;
  m_expiries : nat -> A;
  m_spots : option (nat -> A);
  m_forwards : option (nat -> A);
  m_rates : option (nat -> A);
  m_dividends : option (nat -> A);
  m_carries : option (nat -> A);
  m_factors : option (nat -> A)
}.

(** The keyword arguments of a call on the first [n] options of [m]. *)
Definition kw (n : nat) (m : market) (is_call : pyval) : kwargs A :=
  Kwargs (tab n (m_strikes m)) (tab n (m_volatilities m)) (tab n (m_expiries m))
         (tab n <$> m_spots m) (tab n <$> m_forwards m) (tab n <$> m_rates m)
         (tab n <$> m_dividends m) (tab n <$> m_carries m) (tab n <$> m_factors m)
         is_call.

(** The normaliser of section 4.1, steps 1 to 5, for option [i]. *)
Definition canon_rate (m : market) (i : nat) : A :=
  match m_rates m, m_factors m with
  | Some r, _ => r i
  | None, Some d => ndiv (nneg (nlog (d i))) (m_expiries m i)
  | None, None => lit 0
  end.

Definition canon_dividend (m : market) (i : nat) : A :=
  match m_dividends m with
  | Some q => q i
  | None => lit 0
  end.

Definition canon_carry (m : market) (i : nat) : A :=
  match m_carries m with
  | Some c => c i
  | None => nsub (canon_rate m i) (canon_dividend m i)
  end.

Definition canon_factor (m : market) (i : nat) : A :=
  match m_factors m with
  | Some d => d i
  | None => nexp (nmul (nneg (canon_rate m i)) (m_expiries m i))
  end.

Definition canon_forward (m : market) (i : nat) : A :=
  match m_forwards m, m_spots m with
  | Some f, _ => f i
  | None, Some s => nmul (s i) (nexp (nmul (canon_carry m i) (m_expiries m i)))
  | None, None => lit 0
  end.

Definition canon_spot (m : market) (i : nat) : A :=
  match m_forwards m, m_spots m with
  | Some f, _ => nmul (f i) (nexp (nmul (nneg (canon_carry m i)) (m_expiries m i)))
  | None, Some s => s i
  | None, None => lit 0
  end.

Definition normalize (m : market) (i : nat) : canon :=
  Canon (m_strikes m i) (m_volatilities m i) (m_expiries m i) (canon_rate m i)
        (canon_carry m i) (canon_factor m i) (canon_forward m i) (canon_spot m i).

(** The same batch with the spot quoted instead of the forward: the spot
    that line 125 derives from the forward. *)
Definition quote_spot (m : market) : market :=
  Market (m_strikes m) (m_volatilities m) (m_expiries m) (Some (canon_spot m)) None
         (m_rates m) (m_dividends m) (m_carries m) (m_factors m).

(** The same batch with the discount rate quoted instead of the discount
    factor: the rate that lines 39 and 106 derive from the factor. *)
Definition quote_rate (m : market) : market :=
  Market (m_strikes m) (m_volatilities m) (m_expiries m) (m_spots m) (m_forwards m)
         (Some (canon_rate m)) (m_dividends m) (m_carries m) None.

(** The same batch with other discount inputs. *)
Definition with_discounting (m : market) (rates factors : option (nat -> A)) : market :=
  Market (m_strikes m) (m_volatilities m) (m_expiries m) (m_spots m) (m_forwards m)
         rates (m_dividends m) (m_carries m) factors.

(** A market the normaliser accepts: exactly one of spot and forward, at
    most one of rate and factor, at most one of dividend and carry. *)
Definition exclusive (m : market) : Prop :=
  is_None (m_spots m) <> is_None (m_forwards m) /\
  (m_rates m = None \/ m_factors m = None) /\
  (m_dividends m = None \/ m_carries m = None).

(** A batch of [n] options: every supplied input has [n] elements
    (section 3, "all batch sequences for a single call share identical
    length"). *)
Definition sized (n : nat) (x : option (tensor A)) : Prop :=
  match x with
  | Some t => length t = n
  | None => True
  end.

Definition batch (n : nat) (a : kwargs A) : Prop :=
  length (strikes a) = n /\ length (volatilities a) = n /\ length (expiries a) = n /\
  sized n (spots a) /\ sized n (forwards a) /\ sized n (discount_rates a) /\
  sized n (continuous_dividends a) /\ sized n (cost_of_carries a) /\
  sized n (discount_factors a).

(** The quotes of a call, option by option. *)
Definition column (t : tensor A) (i : nat) : A := nth i t (lit 0).

Definition market_of (a : kwargs A) : market :=
  Market (column (strikes a)) (column (volatilities a)) (column (expiries a))
         (column <$> spots a) (column <$> forwards a) (column <$> discount_rates a)
         (column <$> continuous_dividends a) (column <$> cost_of_carries a)
         (column <$> discount_factors a).

(** The locals of the program that hold the canonical parameters [c i] of
    the options [i < n]. *)
Definition locals_of (n : nat) (c : nat -> canon) : locals A :=
  Locals (tab n (fun i => strike (c i))) (tab n (fun i => volatility (c i)))
         (tab n (fun i => expiry (c i))) (tab n (fun i => discount_rate (c i)))
         (tab n (fun i => cost_of_carry (c i))) (tab n (fun i => discount_factor (c i)))
         (tab n (fun i => forward (c i))) (Some (tab n (fun i => spot (c i)))).

(** Locals hold a canonical parameter set of [n] options when every tensor
    has [n] elements and [t_spots] is bound. *)
Definition shaped (n : nat) (l : locals A) : Prop :=
  length (t_strikes l) = n /\ length (t_volatilities l) = n /\
  length (t_expiries l) = n /\ length (t_discount_rates l) = n /\
  length (t_cost_of_carries l) = n /\ length (t_discount_factors l) = n /\
  length (t_forwards l) = n /\
  exists s, t_spots l = Some s /\ length s = n.

(** Option [i] of shaped locals. *)
Definition element (l : locals A) (i : nat) : canon :=
  let at_ (t : tensor A) := nth i t (lit 0) in
  Canon (at_ (t_strikes l)) (at_ (t_volatilities l)) (at_ (t_expiries l))
        (at_ (t_discount_rates l)) (at_ (t_cost_of_carries l))
        (at_ (t_discount_factors l)) (at_ (t_forwards l))
        (at_ (default [] (t_spots l))).

End Spec.

Arguments canon : clear implicits.
Arguments market : clear implicits.

(** ** Exact arithmetic: the real numbers as numeric library *)

Section RealLibrary.
Local Open Scope R_scope.

(** The standard normal density and distribution function. *)
Definition phi (x : R) : R := exp (- x ^ 2 / 2) / sqrt (2 * PI).

Definition phi_integrable (a b : R) : Riemann_integrable phi a b.
Proof.
  assert (Hc : continuity phi)
    by (apply derivable_continuous; unfold phi, Rdiv; reg).
  destruct (Rle_dec a b) as [Hab|Hab].
  - apply continuity_implies_RiemannInt; [assumption|].
    intros x _. apply Hc.
  - apply RiemannInt_P1, continuity_implies_RiemannInt; [lra|].
    intros x _. apply Hc.
Qed.

Definition Phi (x : R) : R := 1 / 2 + RiemannInt (phi_integrable 0 x).

#[global] Instance RealLib : NumLib R := {|
  lit := Q2R;
  nadd := Rplus;
  nsub := Rminus;
  nmul := Rmult;
  ndiv := Rdiv;
  nneg := Ropp;
  npow := powerRZ;
  nexp := exp;
  nlog := ln;
  nsqrt := sqrt;
  ncdf := Phi
|}.

(** Section 4.3 of the specification: [vega = spot * sqrt(expiry) * phi(d1)]. *)
Definition spec_vega (c : canon R) : R :=
  spot c * sqrt (expiry c) * phi (d1 c).

(** The Black-Scholes price of a call on a spot, undiscounted and with no
    cost of carry, in plain real arithmetic. *)
Definition plain_call (S K sigma T : R) : R :=
  let sv := sigma * sqrt T in
  let x := (ln (S / K) + sv * sv / 2) / sv in
  S * Phi x - K * Phi (x - sv).

End RealLibrary.

(** ** The example of the specification

    Section 8: strike 100, volatility 0.2, expiry 1, as a batch of one
    option; spot or forward, rates and dividends as each property needs. *)

Definition example_call {A} `{NumLib A}
    (spots forwards discount_rates continuous_dividends cost_of_carries
     discount_factors : option (tensor A)) (is_call_options : pyval) : kwargs A :=
  Kwargs [lit 100] [lit 0.2] [lit 1] spots forwards discount_rates
         continuous_dividends cost_of_carries discount_factors is_call_options.

(** The same batch as a market of quotes. *)
Definition example_market {A} `{NumLib A}
    (spot forward rate dividend carry factor : option A) : market A :=
  let quote (x : option A) : option (nat -> A) := (fun v _ => v) <$> x in
  Market (fun _ => lit 100) (fun _ => lit 0.2) (fun _ => lit 1)
         (quote spot) (quote forward) (quote rate) (quote dividend) (quote carry)
         (quote factor).


(** ** Evaluating tensor expressions on batches of equal size *)

Section Evaluation.
Context {A : Type} `{NumLib A}.

Lemma length_tab n (f : nat -> A) : length (tab n f) = n.
Proof. unfold tab. now rewrite length_fmap, length_seq. Qed.

Lemma lookup_tab n (f : nat -> A) i : i < n -> tab n f !! i = Some (f i).
Proof.
  intros Hi. unfold tab. rewrite list_lookup_fmap.
  now rewrite (lookup_seq_lt 0 n i Hi).
Qed.

Lemma tab_ext n (f g : nat -> A) :
  (forall i, i < n -> f i = g i) -> tab n f = tab n g.
Proof.
  intros Hfg. unfold tab. apply list_fmap_ext.
  intros i x Hx. apply lookup_seq in Hx as [-> Hlt]. now apply Hfg.
Qed.

(** Every tensor is the table of its elements. *)
Lemma tab_nth (d : A) (l : tensor A) : l = tab (length l) (fun i => nth i l d).
Proof.
  apply list_eq. intros i.
  destruct (decide (i < length l)) as [Hi|Hi].
  - rewrite lookup_tab by assumption.
    destruct (lookup_lt_is_Some_2 l i Hi) as [x Hx].
    rewrite Hx. f_equal. symmetry. now apply nth_lookup_Some.
  - rewrite !lookup_ge_None_2; [reflexivity| rewrite length_tab; lia | lia].
Qed.

Lemma fmap_tab (op : A -> A) n f : op <$> tab n f = tab n (fun i => op (f i)).
Proof. unfold tab. now rewrite <- list_fmap_compose. Qed.

Lemma zip_with_tab (op : A -> A -> A) n f g :
  zip_with op (tab n f) (tab n g) = tab n (fun i => op (f i) (g i)).
Proof.
  unfold tab. rewrite zip_with_fmap_l, zip_with_fmap_r. apply zip_with_diag.
Qed.

Lemma broadcast_tab (op : A -> A -> A) n f g :
  broadcast op (tab n f) (tab n g) = Ok (tab n (fun i => op (f i) (g i))).
Proof.
  unfold broadcast. rewrite !length_tab, Nat.eqb_refl. now rewrite zip_with_tab.
Qed.

Lemma lift2_tab (op : A -> A -> A) n f g :
  lift2 op (Ok (tab n f)) (Ok (tab n g)) = Ok (tab n (fun i => op (f i) (g i))).
Proof. apply broadcast_tab. Qed.

Lemma lift1_tab (op : A -> A) n f :
  lift1 op (Ok (tab n f)) = Ok (tab n (fun i => op (f i))).
Proof. unfold lift1; simpl. now rewrite fmap_tab. Qed.

Lemma zeros_like_tab n (f : nat -> A) :
  zeros_like (tab n f) = tab n (fun _ => lit 0).
Proof. apply fmap_tab. Qed.

(** An operand that raised makes the whole operation raise. *)
Lemma lift2_raise_l (op : A -> A -> A) e y : lift2 op (Raise e) y = Raise e.
Proof. reflexivity. Qed.

Lemma lift2_raise_r (op : A -> A -> A) x e : lift2 op (Ok x) (Raise e) = Raise e.
Proof. reflexivity. Qed.

Lemma lift1_raise (op : A -> A) e : lift1 op (Raise e) = Raise e.
Proof. reflexivity. Qed.

End Evaluation.

(** [tensor_ops] exposes the lifted primitives behind the operators of the
    source; [teval] evaluates an expression over tables of one size. *)
Ltac tensor_ops :=
  unfold t_add, t_sub, t_mul, t_div, t_neg, t_div_scalar, t_sub_scalar,
    scalar_mul_t, t_pow, torch_exp, torch_log, torch_sqrt, norm_cdf, tvar in *.

Ltac teval :=
  repeat first
    [ rewrite lift2_tab
    | rewrite lift1_tab
    | rewrite broadcast_tab
    | rewrite fmap_tab
    | rewrite zeros_like_tab
    | rewrite lift2_raise_l
    | rewrite lift2_raise_r
    | rewrite lift1_raise
    | progress cbn [bind read_local torch_Tensor operand fmap option_fmap option_map] ].

(** ** The normaliser on batches of equal size *)

Section Normaliser.
Context {A : Type} `{NumLib A}.

Lemma check_exclusive_kw n (m : market A) flag :
  exclusive m -> check_exclusive (kw n m flag) = Ok tt.
Proof.
  intros (Hsf & Hrf & Hqc). destruct m as [K v T s f r q c d]; simpl in *.
  unfold check_exclusive; simpl.
  destruct s, f; simpl in *; try congruence;
    destruct Hrf as [-> | ->], Hqc as [-> | ->]; simpl;
    repeat match goal with |- context [is_not_None (?g <$> ?o)] => destruct o; simpl end;
    reflexivity.
Qed.

(** Lines 32-54: without a dividend input the rates, the cost of carry and
    the discount factors are those of the specification. *)
Lemma resolve_rates_kw n (m : market A) flag :
  m_dividends m = None ->
  resolve_rates (kw n m flag) =
  Ok (tab n (m_strikes m), tab n (m_volatilities m), tab n (m_expiries m),
      tab n (canon_rate m), tab n (canon_carry m), tab n (canon_factor m)).
Proof.
  destruct m as [K v T s f r q c d]; simpl. intros ->.
  unfold resolve_rates, canon_carry, canon_factor, canon_rate, canon_dividend; simpl.
  destruct r as [r|], d as [d|], c as [c|]; simpl; tensor_ops; teval; reflexivity.
Qed.

(** Lines 43-49: with a dividend input and no cost of carry, line 49 reads
    [t_continuous_dividends], which no assignment has bound. *)
Lemma resolve_rates_dividends (a : kwargs A) q l :
  continuous_dividends a = Some q ->
  cost_of_carries a = None ->
  resolve_rates a <> Ok l.
Proof.
  intros Hq Hc. unfold resolve_rates. rewrite Hq, Hc.
  destruct (discount_rates a) as [r|]; simpl.
  - discriminate.
  - destruct (discount_factors a) as [d|]; simpl; [|discriminate].
    tensor_ops.
    match goal with |- context [bind ?e _] => destruct e end; simpl; discriminate.
Qed.

Lemma prices_locals_kw n (m : market A) flag s :
  m_dividends m = None ->
  m_spots m = Some s ->
  m_forwards m = None ->
  prices_locals (kw n m flag) = Ok (locals_of n (normalize m)).
Proof.
  intros Hq Hs Hf. unfold prices_locals.
  rewrite (resolve_rates_kw n m flag Hq).
  destruct m as [K v T s' f r q c d]; simpl in *; subst.
  unfold locals_of, normalize, canon_forward, canon_spot; simpl.
  tensor_ops; teval. reflexivity.
Qed.

(** Line 58: with a forward input [get_vanilla_prices] reads [t_spots]
    before anything has been assigned to it. *)
Lemma prices_locals_forwards (a : kwargs A) f l :
  forwards a = Some f -> prices_locals a <> Ok l.
Proof.
  intros Hf. unfold prices_locals. rewrite Hf.
  destruct (resolve_rates a) as [[[[[[? ?] ?] ?] ?] ?]|]; simpl; discriminate.
Qed.

Lemma greeks_locals_kw n (m : market A) flag :
  m_dividends m = None ->
  is_None (m_spots m) <> is_None (m_forwards m) ->
  greeks_locals (kw n m flag) = Ok (locals_of n (normalize m)).
Proof.
  intros Hq Hsf. unfold greeks_locals.
  rewrite (resolve_rates_kw n m flag Hq).
  destruct m as [K v T s f r q c d]; simpl in *; subst.
  unfold locals_of, normalize, canon_forward, canon_spot; simpl.
  destruct s, f; simpl in *; try congruence; tensor_ops; teval; reflexivity.
Qed.

(** Shaped locals are the table of their elements. *)
Lemma shaped_locals_of n (l : locals A) :
  shaped n l -> l = locals_of n (element l).
Proof.
  destruct l as [K v T r c d f s]; unfold shaped, locals_of, element; simpl.
  intros (HK & Hv & HT & Hr & Hc & Hd & Hf & s' & -> & Hs); simpl.
  subst n.
  rewrite (tab_nth (lit 0) K) at 1. rewrite (tab_nth (lit 0) v) at 1.
  rewrite (tab_nth (lit 0) T) at 1. rewrite (tab_nth (lit 0) r) at 1.
  rewrite (tab_nth (lit 0) c) at 1. rewrite (tab_nth (lit 0) d) at 1.
  rewrite (tab_nth (lit 0) f) at 1. rewrite (tab_nth (lit 0) s') at 1.
  now rewrite Hv, HT, Hr, Hc, Hd, Hf, Hs.
Qed.

Lemma locals_of_shaped n (c : nat -> canon A) : shaped n (locals_of n c).
Proof.
  unfold shaped, locals_of; simpl. rewrite !length_tab.
  repeat split. eexists; split; [reflexivity | apply length_tab].
Qed.

End Normaliser.

(** ** The kernels on canonical parameters *)

Section Kernels.
Context {A : Type} `{NumLib A}.

Lemma known_greek_cases greek :
  known_greek greek = true ->
  greek = "delta" \/ greek = "gamma" \/ greek = "theta" \/ greek = "vega" \/ greek = "rho".
Proof.
  unfold known_greek, greek_names; cbn [existsb].
  rewrite !orb_true_iff, !String.eqb_eq. intuition discriminate.
Qed.

Lemma sqrt_var_of_locals n (c : nat -> canon A) :
  sqrt_var_of (locals_of n c) = Ok (tab n (fun i => sqrt_var (c i))).
Proof. unfold sqrt_var_of, locals_of; simpl. tensor_ops; teval. reflexivity. Qed.

Lemma d1_of_locals n (c : nat -> canon A) :
  d1_of (locals_of n c) (tab n (fun i => sqrt_var (c i)))
  = Ok (tab n (fun i => d1 (c i))).
Proof. unfold d1_of, locals_of; simpl. tensor_ops; teval. reflexivity. Qed.

(** Lines 63-68: the call branch of the pricing kernel. *)
Lemma prices_kernel_call (a : kwargs A) n (c : nat -> canon A) :
  py_eq_True (is_call_options a) = true ->
  prices_kernel a (locals_of n c) = Ok (tab n (fun i => call_price (c i))).
Proof.
  intros Hflag. unfold prices_kernel.
  rewrite sqrt_var_of_locals; cbn [bind]. rewrite d1_of_locals; cbn [bind].
  rewrite Hflag. unfold locals_of; simpl. tensor_ops; teval. reflexivity.
Qed.

(** Lines 69-72 multiply by the keyword argument [discount_factors]
    itself, not by the resolved [t_discount_factors]. *)
Lemma prices_kernel_put (a : kwargs A) n (c : nat -> canon A) (d : nat -> A) :
  py_eq_True (is_call_options a) = false ->
  discount_factors a = Some (tab n d) ->
  prices_kernel a (locals_of n c)
  = Ok (tab n (fun i => nmul (d i) (undiscounted_put (c i)))).
Proof.
  intros Hflag Hd. unfold prices_kernel.
  rewrite sqrt_var_of_locals; cbn [bind]. rewrite d1_of_locals; cbn [bind].
  rewrite Hflag, Hd. unfold locals_of; simpl. tensor_ops; teval. reflexivity.
Qed.

Lemma prices_kernel_put_None (a : kwargs A) n (c : nat -> canon A) :
  py_eq_True (is_call_options a) = false ->
  discount_factors a = None ->
  prices_kernel a (locals_of n c) = Raise TypeError.
Proof.
  intros Hflag Hd. unfold prices_kernel.
  rewrite sqrt_var_of_locals; cbn [bind]. rewrite d1_of_locals; cbn [bind].
  rewrite Hflag, Hd. unfold locals_of; simpl. tensor_ops; teval. reflexivity.
Qed.

(** Lines 131-159. *)
Lemma call_greeks_locals greek n (c : nat -> canon A) :
  known_greek greek = true ->
  call_greeks greek (locals_of n c)
  = Ok (Some (tab n (fun i => greek_value greek true (c i)))).
Proof.
  intros Hg. unfold call_greeks.
  destruct (known_greek_cases greek Hg) as [->|[->|[->|[->| ->]]]];
    cbn [String.eqb Ascii.eqb Bool.eqb];
    rewrite sqrt_var_of_locals; cbn [bind]; rewrite d1_of_locals; cbn [bind];
    unfold exp_half_sq, sqrt_two_pi_t, locals_of; simpl;
    tensor_ops; teval; reflexivity.
Qed.

(** Lines 162-190. *)
Lemma put_greeks_locals greek n (c : nat -> canon A) :
  known_greek greek = true ->
  put_greeks greek (locals_of n c)
  = Ok (Some (tab n (fun i => greek_value greek false (c i)))).
Proof.
  intros Hg. unfold put_greeks.
  destruct (known_greek_cases greek Hg) as [->|[->|[->|[->| ->]]]];
    cbn [String.eqb Ascii.eqb Bool.eqb];
    rewrite sqrt_var_of_locals; cbn [bind]; rewrite d1_of_locals; cbn [bind];
    unfold exp_half_sq, sqrt_two_pi_t, locals_of; simpl;
    tensor_ops; teval; reflexivity.
Qed.

(** Lines 130-192 with a flag that is [True] or [False]: the block of the
    flag returns the Greek. *)
Lemma greeks_kernel_bool greek (b : bool) n (c : nat -> canon A) :
  known_greek greek = true ->
  greeks_kernel greek (PyBool b) (locals_of n c)
  = Ok (Some (tab n (fun i => greek_value greek b (c i)))).
Proof.
  intros Hg. unfold greeks_kernel. destruct b; simpl.
  - now rewrite call_greeks_locals.
  - now rewrite put_greeks_locals.
Qed.

(** A flag that equals neither [True] nor [False] reaches line 192. *)
Lemma greeks_kernel_not_bool greek flag (l : locals A) :
  py_eq_True flag = false ->
  py_eq_False flag = false ->
  greeks_kernel greek flag l
  = Raise (ValueError "Variable 'is_call_options' can only be Booleans ").
Proof. intros Ht Hf. unfold greeks_kernel. now rewrite Ht, Hf. Qed.

End Kernels.

(** ** The whole functions on batches of equal size *)

Section Functions.
Context {A : Type} `{NumLib A}.

Lemma bind_Ok_inv {T U} (m : result T) (k : T -> result U) v :
  bind m k = Ok v -> exists x, m = Ok x /\ k x = Ok v.
Proof. destruct m as [x|e]; simpl; [eauto | discriminate]. Qed.

(** [get_vanilla_prices] for a call, spot quoted, no dividend input. *)
Lemma prices_call_spots n (m : market A) flag s :
  exclusive m ->
  m_dividends m = None ->
  m_spots m = Some s ->
  py_eq_True flag = true ->
  get_vanilla_prices (kw n m flag) = Ok (tab n (fun i => call_price (normalize m i))).
Proof.
  intros Hex Hq Hs Hflag. unfold get_vanilla_prices.
  rewrite (check_exclusive_kw n m flag Hex); cbn [bind].
  destruct Hex as (Hsf & _). rewrite Hs in Hsf.
  assert (Hf : m_forwards m = None) by (destruct (m_forwards m); simpl in *; congruence).
  rewrite (prices_locals_kw n m flag s Hq Hs Hf); cbn [bind].
  apply prices_kernel_call. destruct m; exact Hflag.
Qed.

(** [get_vanilla_prices] for a put when the caller quotes discount factors. *)
Lemma prices_put_factors n (m : market A) flag s d :
  exclusive m ->
  m_dividends m = None ->
  m_spots m = Some s ->
  m_factors m = Some d ->
  py_eq_True flag = false ->
  get_vanilla_prices (kw n m flag) = Ok (tab n (fun i => put_price (normalize m i))).
Proof.
  intros Hex Hq Hs Hd Hflag. unfold get_vanilla_prices.
  rewrite (check_exclusive_kw n m flag Hex); cbn [bind].
  destruct Hex as (Hsf & _). rewrite Hs in Hsf.
  assert (Hf : m_forwards m = None) by (destruct (m_forwards m); simpl in *; congruence).
  rewrite (prices_locals_kw n m flag s Hq Hs Hf); cbn [bind].
  rewrite (prices_kernel_put _ n (normalize m) d).
  - apply f_equal, tab_ext. intros i _.
    unfold put_price, normalize, canon_factor; simpl. now rewrite Hd.
  - destruct m; exact Hflag.
  - destruct m; simpl in *. now rewrite Hd.
Qed.

(** Without discount factors the put branch cannot multiply: line 72. *)
Lemma prices_put_no_factors n (m : market A) flag s :
  exclusive m ->
  m_dividends m = None ->
  m_spots m = Some s ->
  m_factors m = None ->
  py_eq_True flag = false ->
  get_vanilla_prices (kw n m flag) = Raise TypeError.
Proof.
  intros Hex Hq Hs Hd Hflag. unfold get_vanilla_prices.
  rewrite (check_exclusive_kw n m flag Hex); cbn [bind].
  destruct Hex as (Hsf & _). rewrite Hs in Hsf.
  assert (Hf : m_forwards m = None) by (destruct (m_forwards m); simpl in *; congruence).
  rewrite (prices_locals_kw n m flag s Hq Hs Hf); cbn [bind].
  apply prices_kernel_put_None.
  - destruct m; exact Hflag.
  - destruct m; simpl in *. now rewrite Hd.
Qed.

(** A dividend input never lets [get_vanilla_prices] return. *)
Lemma prices_dividends_never_return (a : kwargs A) q out :
  continuous_dividends a = Some q -> get_vanilla_prices a <> Ok out.
Proof.
  intros Hq Hok. unfold get_vanilla_prices in Hok.
  apply bind_Ok_inv in Hok as ([] & Hchk & Hok).
  apply bind_Ok_inv in Hok as (l & Hl & _).
  assert (Hc : cost_of_carries a = None).
  { unfold check_exclusive in Hchk. rewrite Hq in Hchk.
    destruct (cost_of_carries a); [|reflexivity]. simpl in Hchk.
    repeat match type of Hchk with (if ?b then _ else _) = _ => destruct b end;
      discriminate. }
  unfold prices_locals in Hl. apply bind_Ok_inv in Hl as (x & Hx & _).
  exact (resolve_rates_dividends a q x Hq Hc Hx).
Qed.

(** Nor [get_vanilla_greeks]. *)
Lemma greeks_dividends_never_return greek (a : kwargs A) q out :
  continuous_dividends a = Some q -> get_vanilla_greeks greek a <> Ok out.
Proof.
  intros Hq Hok. unfold get_vanilla_greeks in Hok.
  destruct (negb (known_greek greek)); [discriminate|].
  apply bind_Ok_inv in Hok as ([] & Hchk & Hok).
  apply bind_Ok_inv in Hok as (l & Hl & _).
  assert (Hc : cost_of_carries a = None).
  { unfold check_exclusive in Hchk. rewrite Hq in Hchk.
    destruct (cost_of_carries a); [|reflexivity]. simpl in Hchk.
    repeat match type of Hchk with (if ?b then _ else _) = _ => destruct b end;
      discriminate. }
  unfold greeks_locals in Hl. apply bind_Ok_inv in Hl as (x & Hx & _).
  exact (resolve_rates_dividends a q x Hq Hc Hx).
Qed.

(** A forward input never lets [get_vanilla_prices] return. *)
Lemma prices_forwards_never_return (a : kwargs A) f out :
  forwards a = Some f -> get_vanilla_prices a <> Ok out.
Proof.
  intros Hf Hok. unfold get_vanilla_prices in Hok.
  apply bind_Ok_inv in Hok as ([] & _ & Hok).
  apply bind_Ok_inv in Hok as (l & Hl & _).
  exact (prices_locals_forwards a f l Hf Hl).
Qed.

(** [get_vanilla_greeks] with a flag that is [True] or [False], spot or
    forward quoted, no dividend input: the Greek of the flag's block. *)
Lemma greeks_bool n (m : market A) greek (b : bool) :
  known_greek greek = true ->
  exclusive m ->
  m_dividends m = None ->
  get_vanilla_greeks greek (kw n m (PyBool b))
  = Ok (Some (tab n (fun i => greek_value greek b (normalize m i)))).
Proof.
  intros Hg Hex Hq. unfold get_vanilla_greeks. rewrite Hg; cbn [negb].
  rewrite (check_exclusive_kw n m _ Hex); cbn [bind].
  destruct Hex as (Hsf & _).
  rewrite (greeks_locals_kw n m _ Hq Hsf); cbn [bind].
  replace (is_call_options (kw n m (PyBool b))) with (PyBool b) by now destruct m.
  now apply greeks_kernel_bool.
Qed.

(** [get_vanilla_greeks] rejects a flag that equals neither [True] nor
    [False] once the market parameters are resolved. *)
Lemma greeks_flag_rejected n (m : market A) greek flag :
  known_greek greek = true ->
  exclusive m ->
  m_dividends m = None ->
  py_eq_True flag = false ->
  py_eq_False flag = false ->
  get_vanilla_greeks greek (kw n m flag)
  = Raise (ValueError "Variable 'is_call_options' can only be Booleans ").
Proof.
  intros Hg Hex Hq Ht Hf. unfold get_vanilla_greeks. rewrite Hg; cbn [negb].
  rewrite (check_exclusive_kw n m _ Hex); cbn [bind].
  destruct Hex as (Hsf & _).
  rewrite (greeks_locals_kw n m _ Hq Hsf); cbn [bind].
  apply greeks_kernel_not_bool; now destruct m.
Qed.

(** Tensor arithmetic raises no [ValueError]. *)
Lemma bind_no_ValueError {T U} (m : result T) (k : T -> result U) :
  is_ValueError m = false ->
  (forall v, is_ValueError (k v) = false) ->
  is_ValueError (bind m k) = false.
Proof. destruct m as [x|e]; simpl; auto. Qed.

Lemma lift2_no_ValueError (op : A -> A -> A) x y :
  is_ValueError x = false -> is_ValueError y = false ->
  is_ValueError (lift2 op x y) = false.
Proof.
  intros Hx Hy. unfold lift2. apply bind_no_ValueError; [assumption|]. intros a.
  apply bind_no_ValueError; [assumption|]. intros b.
  unfold broadcast. destruct (_ =? _)%nat; [reflexivity|].
  destruct a as [|? [|? ?]], b as [|? [|? ?]]; reflexivity.
Qed.

Lemma lift1_no_ValueError (op : A -> A) x :
  is_ValueError x = false -> is_ValueError (lift1 op x) = false.
Proof. intros Hx. unfold lift1. now apply bind_no_ValueError. Qed.

Lemma read_local_no_ValueError name (x : option (tensor A)) :
  is_ValueError (read_local name x) = false.
Proof. now destruct x. Qed.

Lemma operand_no_ValueError (x : option (tensor A)) : is_ValueError (operand x) = false.
Proof. now destruct x. Qed.

Lemma torch_Tensor_no_ValueError (x : option (tensor A)) :
  is_ValueError (torch_Tensor x) = false.
Proof. now destruct x. Qed.

End Functions.

Ltac no_ValueError :=
  tensor_ops;
  repeat first
    [ reflexivity
    | apply read_local_no_ValueError
    | apply operand_no_ValueError
    | apply torch_Tensor_no_ValueError
    | apply lift2_no_ValueError
    | apply lift1_no_ValueError
    | apply bind_no_ValueError
    | intros ?
    | match goal with
      | |- is_ValueError (match ?x with _ => _ end) = false => destruct x
      | |- is_ValueError (let '(_, _) := ?x in _) = false => destruct x
      end ].

Section FlagCheck.
Context {A : Type} `{NumLib A}.

Lemma resolve_rates_no_ValueError (a : kwargs A) :
  is_ValueError (resolve_rates a) = false.
Proof. unfold resolve_rates. no_ValueError. Qed.

Lemma prices_locals_no_ValueError (a : kwargs A) :
  is_ValueError (prices_locals a) = false.
Proof.
  unfold prices_locals. apply bind_no_ValueError.
  - apply resolve_rates_no_ValueError.
  - intros [[[[[? ?] ?] ?] ?] ?]. no_ValueError.
Qed.

Lemma prices_kernel_no_ValueError (a : kwargs A) l :
  is_ValueError (prices_kernel a l) = false.
Proof. unfold prices_kernel, sqrt_var_of, d1_of. no_ValueError. Qed.

(** [get_vanilla_prices] has no check of the flag: past the exclusivity
    checks it raises no [ValueError], whatever the flag is. *)
Lemma prices_no_flag_check (a : kwargs A) :
  check_exclusive a = Ok tt -> is_ValueError (get_vanilla_prices a) = false.
Proof.
  intros Hchk. unfold get_vanilla_prices. rewrite Hchk; cbn [bind].
  apply bind_no_ValueError.
  - apply prices_locals_no_ValueError.
  - intros l. apply prices_kernel_no_ValueError.
Qed.

End FlagCheck.

(** ** The flag of the Greeks *)

Section Flag.
Context {A : Type} `{NumLib A}.

Lemma check_exclusive_with_flag (a : kwargs A) flag :
  check_exclusive (with_flag a flag) = check_exclusive a.
Proof. reflexivity. Qed.

Lemma greeks_locals_with_flag (a : kwargs A) flag :
  greeks_locals (with_flag a flag) = greeks_locals a.
Proof. reflexivity. Qed.

(** A block entered with one of the five names never falls through. *)
Lemma call_greeks_returns greek (l : locals A) :
  known_greek greek = true -> call_greeks greek l <> Ok None.
Proof.
  intros Hg. unfold call_greeks.
  destruct (known_greek_cases greek Hg) as [->|[->|[->|[->| ->]]]];
    cbn [String.eqb Ascii.eqb Bool.eqb];
    repeat match goal with |- bind ?e _ <> _ => destruct e; cbn [bind] end;
    discriminate.
Qed.

Lemma put_greeks_returns greek (l : locals A) :
  known_greek greek = true -> put_greeks greek l <> Ok None.
Proof.
  intros Hg. unfold put_greeks.
  destruct (known_greek_cases greek Hg) as [->|[->|[->|[->| ->]]]];
    cbn [String.eqb Ascii.eqb Bool.eqb];
    repeat match goal with |- bind ?e _ <> _ => destruct e; cbn [bind] end;
    discriminate.
Qed.

Lemma greeks_kernel_True greek (l : locals A) :
  known_greek greek = true ->
  greeks_kernel greek (PyBool true) l = call_greeks greek l.
Proof.
  intros Hg. unfold greeks_kernel; cbn [py_eq_True py_eq_False negb].
  pose proof (call_greeks_returns greek l Hg) as Hr.
  destruct (call_greeks greek l) as [[v|]|e]; cbn [bind]; congruence.
Qed.

Lemma greeks_kernel_False greek (l : locals A) :
  greeks_kernel greek (PyBool false) l = put_greeks greek l.
Proof. reflexivity. Qed.

(** The gamma and vega branches of the two blocks are the same text. *)
Lemma gamma_vega_same_branch greek (l : locals A) :
  greek = "gamma" \/ greek = "vega" -> call_greeks greek l = put_greeks greek l.
Proof. intros [-> | ->]; reflexivity. Qed.

(** Whatever the inputs, and whether the call returns or raises, gamma
    and vega do not depend on the flag. *)
Lemma gamma_vega_flag_irrelevant greek (a : kwargs A) :
  greek = "gamma" \/ greek = "vega" ->
  get_vanilla_greeks greek (with_flag a (PyBool true))
  = get_vanilla_greeks greek (with_flag a (PyBool false)).
Proof.
  intros Hg. unfold get_vanilla_greeks.
  rewrite !check_exclusive_with_flag, !greeks_locals_with_flag.
  destruct (negb (known_greek greek)) eqn:Hk; [reflexivity|].
  apply negb_false_iff in Hk.
  destruct (check_exclusive a); [|reflexivity]; cbn [bind].
  destruct (greeks_locals a) as [l|]; [|reflexivity]; cbn [bind].
  cbn [is_call_options with_flag].
  rewrite greeks_kernel_True, greeks_kernel_False by assumption.
  now apply gamma_vega_same_branch.
Qed.

(** With one of the five names and a flag that is [True] or [False], line
    192 is never the exit of the call. *)
Lemma bool_error_unreachable greek (a : kwargs A) (b : bool) :
  known_greek greek = true ->
  is_call_options a = PyBool b ->
  get_vanilla_greeks greek a
  <> Raise (ValueError "Variable 'is_call_options' can only be Booleans ").
Proof.
  intros Hg Hb. unfold get_vanilla_greeks. rewrite Hg, Hb; cbn [negb].
  unfold check_exclusive.
  repeat match goal with |- bind (if ?c then _ else _) _ <> _ =>
    destruct c; cbn [bind]; [discriminate|] end.
  cbn [bind].
  pose proof (resolve_rates_no_ValueError a) as Hr.
  unfold greeks_locals.
  destruct (resolve_rates a) as [[[[[[? ?] ?] ?] ?] ?]|e]; cbn [bind];
    [|destruct e; simpl in Hr; congruence].
  assert (Hk : forall l, greeks_kernel greek (PyBool b) l
     <> Raise (ValueError "Variable 'is_call_options' can only be Booleans ")).
  { intros l. destruct b.
    - rewrite greeks_kernel_True by assumption. unfold call_greeks.
      destruct (known_greek_cases greek Hg) as [->|[->|[->|[->| ->]]]];
        cbn [String.eqb Ascii.eqb Bool.eqb];
        match goal with |- ?e <> _ =>
          assert (Hn : is_ValueError e = false)
            by (unfold sqrt_var_of, d1_of, exp_half_sq, sqrt_two_pi_t; no_ValueError);
          intros Heq; rewrite Heq in Hn; discriminate end.
    - rewrite greeks_kernel_False. unfold put_greeks.
      destruct (known_greek_cases greek Hg) as [->|[->|[->|[->| ->]]]];
        cbn [String.eqb Ascii.eqb Bool.eqb];
        match goal with |- ?e <> _ =>
          assert (Hn : is_ValueError e = false)
            by (unfold sqrt_var_of, d1_of, exp_half_sq, sqrt_two_pi_t; no_ValueError);
          intros Heq; rewrite Heq in Hn; discriminate end. }
  destruct (forwards a) as [f|].
  - match goal with |- bind (bind ?e _) _ <> _ =>
      assert (Hn : is_ValueError e = false) by no_ValueError;
      destruct e as [?|[]]; cbn [bind]; try discriminate end.
    apply Hk.
  - match goal with |- bind (bind ?e _) _ <> _ =>
      assert (Hn : is_ValueError e = false) by no_ValueError;
      destruct e as [?|[]]; cbn [bind]; try discriminate end.
    match goal with |- bind (bind ?e _) _ <> _ =>
      assert (Hn' : is_ValueError e = false) by no_ValueError;
      destruct e as [?|[]]; cbn [bind]; try discriminate end.
    apply Hk.
Qed.

End Flag.

(** ** Every batch of equal size *)

Section Batches.
Context {A : Type} `{NumLib A}.

Lemma tab_column n (t : tensor A) : length t = n -> tab n (column t) = t.
Proof. intros <-. symmetry. apply tab_nth. Qed.

Lemma tab_column_sized n (x : option (tensor A)) :
  sized n x -> tab n <$> (column <$> x) = x.
Proof. destruct x as [t|]; simpl; [|reflexivity]. intros Ht. now rewrite tab_column. Qed.

(** A batch is the table of its quotes. *)
Lemma batch_kw n (a : kwargs A) :
  batch n a -> kw n (market_of a) (is_call_options a) = a.
Proof.
  destruct a as [K v T s f r q c d flag]; unfold batch, kw, market_of; simpl.
  intros (HK & Hv & HT & Hs & Hf & Hr & Hq & Hc & Hd).
  now rewrite !tab_column, !tab_column_sized by assumption.
Qed.

Lemma exclusive_market_of (a : kwargs A) :
  check_exclusive a = Ok tt -> exclusive (market_of a).
Proof.
  unfold check_exclusive, exclusive, market_of; simpl.
  destruct (spots a), (forwards a); simpl; try discriminate;
    destruct (discount_rates a), (discount_factors a); simpl; try discriminate;
    destruct (continuous_dividends a), (cost_of_carries a); simpl; try discriminate;
    intros _; repeat split; auto; discriminate.
Qed.

(** [get_vanilla_prices], call, on every batch that quotes spots and no
    dividends: the closed form of section 4.2 on the canonical parameters. *)
Lemma prices_call_batch n (a : kwargs A) :
  batch n a ->
  check_exclusive a = Ok tt ->
  forwards a = None ->
  continuous_dividends a = None ->
  py_eq_True (is_call_options a) = true ->
  get_vanilla_prices a
  = Ok (tab n (fun i => call_price (normalize (market_of a) i))).
Proof.
  intros Hb Hchk Hf Hq Hflag.
  pose proof (exclusive_market_of a Hchk) as Hex.
  rewrite <- (batch_kw n a Hb) at 1.
  destruct (spots a) as [s|] eqn:Hs.
  - apply prices_call_spots with (s := column s); try assumption.
    + unfold market_of; simpl. now rewrite Hq.
    + unfold market_of; simpl. now rewrite Hs.
  - unfold check_exclusive in Hchk. rewrite Hs, Hf in Hchk. discriminate.
Qed.

(** [get_vanilla_prices], put, on every such batch that quotes discount
    factors. *)
Lemma prices_put_batch n (a : kwargs A) d :
  batch n a ->
  check_exclusive a = Ok tt ->
  forwards a = None ->
  continuous_dividends a = None ->
  discount_factors a = Some d ->
  py_eq_True (is_call_options a) = false ->
  get_vanilla_prices a
  = Ok (tab n (fun i => put_price (normalize (market_of a) i))).
Proof.
  intros Hb Hchk Hf Hq Hd Hflag.
  pose proof (exclusive_market_of a Hchk) as Hex.
  rewrite <- (batch_kw n a Hb) at 1.
  destruct (spots a) as [s|] eqn:Hs.
  - apply prices_put_factors with (s := column s) (d := column d); try assumption.
    + unfold market_of; simpl. now rewrite Hq.
    + unfold market_of; simpl. now rewrite Hs.
    + unfold market_of; simpl. now rewrite Hd.
  - unfold check_exclusive in Hchk. rewrite Hs, Hf in Hchk. discriminate.
Qed.

(** [get_vanilla_greeks] on every batch without dividends, spot or forward
    quoted, flag [True] or [False]: the [return] of the flag's block. *)
Lemma greeks_batch n (a : kwargs A) greek (b : bool) :
  batch n a ->
  known_greek greek = true ->
  check_exclusive a = Ok tt ->
  continuous_dividends a = None ->
  is_call_options a = PyBool b ->
  get_vanilla_greeks greek a
  = Ok (Some (tab n (fun i => greek_value greek b (normalize (market_of a) i)))).
Proof.
  intros Hb Hg Hchk Hq Hflag.
  pose proof (exclusive_market_of a Hchk) as Hex.
  rewrite <- (batch_kw n a Hb) at 1. rewrite Hflag.
  apply greeks_bool; try assumption.
  unfold market_of; simpl. now rewrite Hq.
Qed.

End Batches.

(** ** Exact arithmetic *)

Section Reals.
Local Open Scope R_scope.

Lemma sqrt_two_PI_not_1 : sqrt (2 * PI) <> 1.
Proof.
  intros E. pose proof PI2_1 as Hpi.
  assert (H2 : 2 * PI = 1) by (rewrite <- (sqrt_sqrt (2 * PI)) by lra; rewrite E; lra).
  lra.
Qed.

Lemma exp_half_square_phi (x : R) :
  exp_half_square x = phi x * sqrt (2 * PI).
Proof.
  assert (Hs : sqrt (2 * PI) <> 0).
  { pose proof PI_RGT_0. apply Rgt_not_eq, sqrt_lt_R0. lra. }
  unfold exp_half_square, phi; simpl. unfold Q2R; simpl.
  replace (- (x * (x * 1)) / (2 * / 1)) with (- (x * (x * 1)) / 2) by (field).
  field. exact Hs.
Qed.

(** The vega of the program is [sqrt(2 PI)] times the vega of the
    specification, so the two differ wherever they are not zero. *)
Lemma vega_value_spec_vega (c : canon R) :
  vega_value c = sqrt (2 * PI) * spec_vega c.
Proof.
  unfold vega_value, spec_vega. rewrite exp_half_square_phi. simpl. ring.
Qed.

Lemma vega_value_differs (c : canon R) :
  0 < spot c -> 0 < expiry c -> vega_value c <> spec_vega c.
Proof.
  intros Hs Ht Heq. rewrite vega_value_spec_vega in Heq.
  assert (Hpos : 0 < spec_vega c).
  { unfold spec_vega, phi.
    pose proof PI_RGT_0.
    apply Rmult_lt_0_compat; [apply Rmult_lt_0_compat|]; try assumption.
    - now apply sqrt_lt_R0.
    - apply Rdiv_lt_0_compat; [apply exp_pos | apply sqrt_lt_R0; lra]. }
  apply sqrt_two_PI_not_1. nra.
Qed.

(** Put-call parity of the closed forms. *)
Lemma parity_closed_forms (c : canon R) :
  call_price c - put_price c = discount_factor c * (forward c - strike c).
Proof.
  unfold call_price, put_price, undiscounted_put; simpl. ring.
Qed.

(** Deriving the spot from a forward and the forward back from that spot
    gives the forward again. *)
Lemma forward_roundtrip (f c t : R) :
  f * exp (- c * t) * exp (c * t) = f.
Proof.
  rewrite Rmult_assoc, <- exp_plus.
  replace (- c * t + c * t) with 0 by ring. rewrite exp_0. ring.
Qed.

End Reals.

Section RealFunctions.
Local Open Scope R_scope.

Lemma locals_of_ext {A} `{NumLib A} n (c c' : nat -> canon A) :
  (forall i, (i < n)%nat -> c i = c' i) -> locals_of n c = locals_of n c'.
Proof.
  intros Hc. unfold locals_of.
  f_equal; [..|f_equal]; apply tab_ext; intros i Hi; now rewrite (Hc i Hi).
Qed.

(** Put-call parity holds in exact arithmetic whenever both prices exist,
    that is, when the caller quotes spots and discount factors and no
    dividends. *)
Lemma put_call_parity n (m : market R) s d :
  exclusive m ->
  m_dividends m = None ->
  m_spots m = Some s ->
  m_factors m = Some d ->
  exists call put,
    get_vanilla_prices (kw n m (PyBool true)) = Ok call /\
    get_vanilla_prices (kw n m (PyBool false)) = Ok put /\
    forall i, (i < n)%nat ->
      exists x y, call !! i = Some x /\ put !! i = Some y /\
        x - y = canon_factor m i * (canon_forward m i - m_strikes m i).
Proof.
  intros Hex Hq Hs Hd.
  exists (tab n (fun i => call_price (normalize m i))),
         (tab n (fun i => put_price (normalize m i))).
  split; [now apply prices_call_spots with (s := s)|].
  split; [now apply prices_put_factors with (s := s) (d := d)|].
  intros i Hi. do 2 eexists.
  rewrite !lookup_tab by assumption.
  split; [reflexivity|]. split; [reflexivity|].
  apply parity_closed_forms.
Qed.

Lemma normalize_quote_spot (m : market R) f i :
  m_forwards m = Some f -> normalize (quote_spot m) i = normalize m i.
Proof.
  intros Hf. destruct m as [K v T s f' r q c d]; simpl in *; subst.
  unfold normalize, canon_forward, canon_spot, canon_carry, canon_rate, canon_factor;
    simpl.
  f_equal. apply forward_roundtrip.
Qed.

(** In exact arithmetic [get_vanilla_greeks] gives the same answer for a
    forward as for the spot derived from it. *)
Lemma greeks_forward_as_spot n (m : market R) f greek flag :
  exclusive m ->
  m_dividends m = None ->
  m_forwards m = Some f ->
  get_vanilla_greeks greek (kw n m flag)
  = get_vanilla_greeks greek (kw n (quote_spot m) flag).
Proof.
  intros Hex Hq Hf.
  assert (Hex' : exclusive (quote_spot m)).
  { destruct Hex as (? & ? & ?). repeat split; simpl; auto. }
  unfold get_vanilla_greeks.
  destruct (negb (known_greek greek)); [reflexivity|].
  rewrite !check_exclusive_kw by assumption; cbn [bind].
  rewrite !greeks_locals_kw by (try apply Hex; try apply Hex'; assumption).
  cbn [bind].
  rewrite (locals_of_ext n (normalize (quote_spot m)) (normalize m))
    by (intros i _; now apply normalize_quote_spot with (f := f)).
  now destruct m.
Qed.

End RealFunctions.

(** ** The properties of the specification *)

(** The example batch is the first option of the example market. *)
Lemma example_call_market {A} `{NumLib A}
    (spot forward rate dividend carry factor : option A) flag :
  kw 1 (example_market spot forward rate dividend carry factor) flag
  = example_call ((fun x => [x]) <$> spot) ((fun x => [x]) <$> forward)
                 ((fun x => [x]) <$> rate) ((fun x => [x]) <$> dividend)
                 ((fun x => [x]) <$> carry) ((fun x => [x]) <$> factor) flag.
Proof.
  destruct spot, forward, rate, dividend, carry, factor; reflexivity.
Qed.

(** C1 (fails on the code): a call price is asked for a valid batch that
    quotes spots and a continuous dividend yield of 2%.  Lines 43-44 bind
    [t_continuous_dividends] only when no dividends are supplied, so line
    49 raises [UnboundLocalError] and no price is returned. *)
Theorem prices_call_dividend_input_raises {A} `{NumLib A} :
  get_vanilla_prices
    (example_call (Some [lit 100]) None None (Some [lit 0.02]) None None (PyBool true))
  = Raise (UnboundLocalError "t_continuous_dividends").
Proof. reflexivity. Qed.

(** C2 (fails on the code): a put price is asked with the discount factor
    left to be derived from the rate.  Line 72 multiplies by the keyword
    argument [discount_factors], which is [None], instead of the resolved
    [t_discount_factors]: the call raises [TypeError]. *)
Theorem prices_put_without_factors_raises {A} `{NumLib A} :
  get_vanilla_prices
    (example_call (Some [lit 100]) None (Some [lit 0.05]) None None None (PyBool false))
  = Raise TypeError.
Proof. reflexivity. Qed.

(** C3 (fails on the code): for one and the same valid parameter set the
    call price is returned and the put price is not, so there is no
    difference of the two to equal [discount_factor * (forward - strike)]. *)
Theorem parity_without_factors_has_no_put {A} `{NumLib A} :
  get_vanilla_prices
    (example_call (Some [lit 100]) None (Some [lit 0.05]) None None None (PyBool true))
  = Ok [call_price
          (normalize (example_market (Some (lit 100)) None (Some (lit 0.05)) None None None)
                     0)]
  /\
  get_vanilla_prices
    (example_call (Some [lit 100]) None (Some [lit 0.05]) None None None (PyBool false))
  = Raise TypeError.
Proof. split; reflexivity. Qed.

(** C4 (fails on the code): with [continuous_dividends] supplied and
    [cost_of_carries] not, neither function resolves a cost of carry:
    both raise [UnboundLocalError] at the subtraction of lines 49 and 116. *)
Theorem dividend_input_unbound {A} `{NumLib A} :
  get_vanilla_prices
    (example_call (Some [lit 100]) None (Some [lit 0.05]) (Some [lit 0.02]) None None
                  (PyBool true))
  = Raise (UnboundLocalError "t_continuous_dividends")
  /\
  get_vanilla_greeks "delta"
    (example_call (Some [lit 100]) None (Some [lit 0.05]) (Some [lit 0.02]) None None
                  (PyBool true))
  = Raise (UnboundLocalError "t_continuous_dividends").
Proof. split; reflexivity. Qed.

(** C5 (fails on the code): with [forwards] supplied and [spots] not,
    [get_vanilla_prices] raises [UnboundLocalError] at line 58, which reads
    [t_spots] instead of assigning it; [get_vanilla_greeks] assigns it at
    line 125 and returns. *)
Theorem prices_forward_input_raises {A} `{NumLib A} :
  get_vanilla_prices
    (example_call None (Some [lit 100]) None None None None (PyBool true))
  = Raise (UnboundLocalError "t_spots")
  /\
  get_vanilla_greeks "delta"
    (example_call None (Some [lit 100]) None None None None (PyBool true))
  = Ok (Some [delta_call
                (normalize (example_market None (Some (lit 100)) None None None None) 0)]).
Proof. split; reflexivity. Qed.

(** C6 (fails on the code): in exact arithmetic, for the at-the-money
    option and either flag, [get_vanilla_greeks] returns as vega
    [spot * sqrt(expiry) * exp(-d1^2/2)] (lines 152 and 183), without the
    [1/sqrt(2 pi)] of the density that gamma and theta carry, which is not
    the [spot * sqrt(expiry) * phi(d1)] of the specification. *)
Theorem vega_lacks_density_constant :
  let c := normalize (example_market (Some (lit 100)) None None None None None) 0 in
  get_vanilla_greeks "vega"
    (example_call (Some [lit 100]) None None None None None (PyBool true))
  = Ok (Some [vega_value c])
  /\
  get_vanilla_greeks "vega"
    (example_call (Some [lit 100]) None None None None None (PyBool false))
  = Ok (Some [vega_value c])
  /\
  vega_value c <> spec_vega c.
Proof.
  split; [reflexivity|]. split; [reflexivity|].
  apply vega_value_differs; unfold example_market; simpl; unfold canon_spot; simpl;
    unfold Q2R; simpl; lra.
Qed.

(** C7: whenever spots and forwards are both supplied or both absent, or
    both discount inputs are supplied, or both dividend inputs are
    supplied, both functions raise [ValueError], whatever the tensors
    hold: the checks of lines 25-30 and 90-97 come before any numeric
    work, and nothing is returned. *)
Theorem exclusivity_enforced {A} `{NumLib A} (greek : string) (a : kwargs A) :
  is_None (spots a) = is_None (forwards a)
  \/ (discount_rates a <> None /\ discount_factors a <> None)
  \/ (continuous_dividends a <> None /\ cost_of_carries a <> None) ->
  (exists msg, get_vanilla_prices a = Raise (ValueError msg)) /\
  (exists msg, get_vanilla_greeks greek a = Raise (ValueError msg)).
Proof.
  intros Hbad.
  assert (Hchk : exists msg, check_exclusive a = Raise (ValueError msg)).
  { unfold check_exclusive.
    destruct Hbad as [Hsf | [[Hr Hd] | [Hq Hc]]].
    - rewrite Hsf, eqb_reflx. eauto.
    - destruct (eqb _ _); [eauto|].
      destruct (discount_rates a), (discount_factors a); try congruence.
      simpl. eauto.
    - destruct (eqb _ _); [eauto|].
      destruct (is_not_None (discount_rates a) && is_not_None (discount_factors a));
        [eauto|].
      destruct (continuous_dividends a), (cost_of_carries a); try congruence.
      simpl. eauto. }
  destruct Hchk as [msg Hchk]. split.
  - exists msg. unfold get_vanilla_prices. now rewrite Hchk.
  - unfold get_vanilla_greeks. destruct (negb (known_greek greek)); [eauto|].
    exists msg. now rewrite Hchk.
Qed.

Lemma exclusivity_enforced_witness :
  is_None (spots (example_call (A := R) (Some [lit 100]) (Some [lit 100]) None None
                               None None (PyBool true)))
  = is_None (forwards (example_call (A := R) (Some [lit 100]) (Some [lit 100]) None
                                    None None None (PyBool true)))
  /\
  (exists msg,
     get_vanilla_prices
       (example_call (A := R) (Some [lit 100]) (Some [lit 100]) None None None None
                     (PyBool true))
     = Raise (ValueError msg)) /\
  (exists msg,
     get_vanilla_greeks "rho"
       (example_call (A := R) (Some [lit 100]) (Some [lit 100]) None None None None
                     (PyBool true))
     = Raise (ValueError msg)).
Proof.
  split; [reflexivity|].
  apply (exclusivity_enforced "rho"). left. reflexivity.
Defined.

(** C8: for every canonical parameter set that the normaliser resolves,
    with [n] options, [get_vanilla_greeks] returns for gamma, and likewise
    for vega, one and the same batch of [n] values for
    [is_call_options = True] and for [is_call_options = False]. *)
Theorem gamma_vega_call_put_agree {A} `{NumLib A}
    (greek : string) (a : kwargs A) (l : locals A) (n : nat) :
  greek = "gamma" \/ greek = "vega" ->
  check_exclusive a = Ok tt ->
  greeks_locals a = Ok l ->
  shaped n l ->
  exists v,
    length v = n /\
    get_vanilla_greeks greek (with_flag a (PyBool true)) = Ok (Some v) /\
    get_vanilla_greeks greek (with_flag a (PyBool false)) = Ok (Some v).
Proof.
  intros Hg Hchk Hl Hshape.
  assert (Hk : known_greek greek = true) by (destruct Hg as [-> | ->]; reflexivity).
  exists (tab n (fun i => greek_value greek true (element l i))).
  split; [apply length_tab|].
  assert (Htrue : get_vanilla_greeks greek (with_flag a (PyBool true))
                  = Ok (Some (tab n (fun i => greek_value greek true (element l i))))).
  { unfold get_vanilla_greeks. rewrite Hk; cbn [negb].
    rewrite check_exclusive_with_flag, greeks_locals_with_flag, Hchk, Hl; cbn [bind].
    rewrite (shaped_locals_of n l Hshape) at 1.
    apply greeks_kernel_bool, Hk. }
  split; [exact Htrue|].
  now rewrite <- (gamma_vega_flag_irrelevant greek a Hg).
Qed.

Lemma gamma_vega_call_put_agree_witness :
  exists v : tensor R,
    length v = 1%nat /\
    get_vanilla_greeks "gamma"
      (with_flag (example_call (Some [lit 100]) None None None None None PyNone)
                 (PyBool true)) = Ok (Some v) /\
    get_vanilla_greeks "gamma"
      (with_flag (example_call (Some [lit 100]) None None None None None PyNone)
                 (PyBool false)) = Ok (Some v).
Proof.
  apply (gamma_vega_call_put_agree "gamma"
           (example_call (Some [lit 100]) None None None None None PyNone)
           (locals_of 1 (normalize
                           (example_market (Some (lit 100)) None None None None None)))
           1).
  - left. reflexivity.
  - reflexivity.
  - reflexivity.
  - repeat split. exists [lit 100]. split; reflexivity.
Defined.

(** C9 (fails on the code): [get_vanilla_prices] does not check the flag.
    With [is_call_options = "call"], which is no boolean, line 67 compares
    it with [True], fails, and the [else] branch returns the put price;
    only [get_vanilla_greeks] has the [ValueError] of line 192. *)
Theorem prices_accepts_non_boolean_flag {A} `{NumLib A} :
  get_vanilla_prices
    (example_call (Some [lit 100]) None None None None (Some [lit 0.95]) (PyStr "call"))
  = Ok [put_price
          (normalize (example_market (Some (lit 100)) None None None None (Some (lit 0.95)))
                     0)]
  /\
  get_vanilla_greeks "delta"
    (example_call (Some [lit 100]) None None None None (Some [lit 0.95]) (PyStr "call"))
  = Raise (ValueError "Variable 'is_call_options' can only be Booleans ").
Proof. split; reflexivity. Qed.

(** C10 (fails on the code): the selector is one of the five names, the
    flag is [True] and the exclusivity checks pass, yet the call reaches no
    [return]: with a dividend input line 116 raises [UnboundLocalError]
    before line 130. *)
Theorem greeks_dividend_input_no_return {A} `{NumLib A} :
  known_greek "gamma" = true
  /\
  check_exclusive
    (example_call (Some [lit 100]) None None (Some [lit 0.02]) None None (PyBool true))
  = Ok tt
  /\
  get_vanilla_greeks "gamma"
    (example_call (Some [lit 100]) None None (Some [lit 0.02]) None None (PyBool true))
  = Raise (UnboundLocalError "t_continuous_dividends").
Proof. repeat split. Qed.

(** ** Further properties of the two functions *)

Section Checks.
Context {A : Type} `{NumLib A}.

Lemma check_exclusive_Ok_iff (a : kwargs A) :
  check_exclusive a = Ok tt <->
  is_None (spots a) <> is_None (forwards a) /\
  (discount_rates a = None \/ discount_factors a = None) /\
  (continuous_dividends a = None \/ cost_of_carries a = None).
Proof.
  unfold check_exclusive.
  destruct (spots a), (forwards a), (discount_rates a), (discount_factors a),
    (continuous_dividends a), (cost_of_carries a); simpl;
    split; try discriminate; try (intros _; repeat split; auto; discriminate);
    intros (Hsf & [Hr|Hr] & [Hq|Hq]); congruence.
Qed.

Lemma check_exclusive_raises (a : kwargs A) :
  check_exclusive a <> Ok tt -> is_ValueError (check_exclusive a) = true.
Proof.
  unfold check_exclusive.
  repeat match goal with |- context [if ?c then _ else _] => destruct c end;
    simpl; congruence.
Qed.

(** Lines 130-192 on canonical parameters, for any flag. *)
Lemma greeks_kernel_locals greek flag n (c : nat -> canon A) :
  known_greek greek = true ->
  greeks_kernel greek flag (locals_of n c)
  = if py_eq_True flag then Ok (Some (tab n (fun i => greek_value greek true (c i))))
    else if py_eq_False flag
         then Ok (Some (tab n (fun i => greek_value greek false (c i))))
         else Raise (ValueError "Variable 'is_call_options' can only be Booleans ").
Proof.
  intros Hg. unfold greeks_kernel.
  destruct (py_eq_True flag).
  - now rewrite call_greeks_locals.
  - cbn [bind]. destruct (py_eq_False flag); [|reflexivity].
    now rewrite put_greeks_locals.
Qed.

(** No Greek reads the discount rate or the discount factor. *)
Lemma greek_value_discounting greek b (c c' : canon A) :
  strike c = strike c' -> volatility c = volatility c' -> expiry c = expiry c' ->
  cost_of_carry c = cost_of_carry c' -> forward c = forward c' -> spot c = spot c' ->
  greek_value greek b c = greek_value greek b c'.
Proof.
  destruct c, c'; simpl. intros -> -> -> -> -> ->. reflexivity.
Qed.

End Checks.

(** X1: a selector that is none of the five names makes
    [get_vanilla_greeks] raise the [ValueError] of line 91, whatever the
    other arguments are: the check of line 90 is the first statement, so it
    also wins over a violated exclusivity rule. *)
Theorem unknown_greek_rejected {A} `{NumLib A} (greek : string) (a : kwargs A) :
  known_greek greek = false ->
  get_vanilla_greeks greek a
  = Raise (ValueError "Input greek should be one of 'delta','gamma','theta','vega','rho'").
Proof. intros Hg. unfold get_vanilla_greeks. now rewrite Hg. Qed.

Lemma unknown_greek_rejected_witness :
  get_vanilla_greeks "vanna"
    (example_call (A := R) (Some [lit 100]) (Some [lit 100]) None None None None
                  (PyBool true))
  = Raise (ValueError "Input greek should be one of 'delta','gamma','theta','vega','rho'").
Proof. apply unknown_greek_rejected. reflexivity. Defined.

(** X2: [get_vanilla_prices] raises a [ValueError] exactly when one of the
    three exclusivity rules of lines 25-30 is violated; nothing after line
    30 raises one, whatever the tensors and the flag are. *)
Theorem prices_ValueError_iff {A} `{NumLib A} (a : kwargs A) :
  is_ValueError (get_vanilla_prices a) = true <->
  (is_None (spots a) = is_None (forwards a)
   \/ (discount_rates a <> None /\ discount_factors a <> None)
   \/ (continuous_dividends a <> None /\ cost_of_carries a <> None)).
Proof.
  destruct (check_exclusive a) as [[]|e] eqn:Hchk.
  - rewrite (prices_no_flag_check a Hchk).
    apply check_exclusive_Ok_iff in Hchk as (Hsf & Hrd & Hqc).
    split; [discriminate|].
    intros [?|[[? ?]|[? ?]]];
      [congruence | destruct Hrd; congruence | destruct Hqc; congruence].
  - assert (Hv : is_ValueError (check_exclusive a) = true)
      by (apply check_exclusive_raises; congruence).
    unfold get_vanilla_prices. rewrite Hchk in *. cbn [bind].
    split; [intros _ | intros _; exact Hv].
    clear Hv. unfold check_exclusive in Hchk.
    destruct (spots a), (forwards a), (discount_rates a), (discount_factors a),
      (continuous_dividends a), (cost_of_carries a); simpl in Hchk;
      try discriminate;
      first [ left; reflexivity
            | right; left; split; discriminate
            | right; right; split; discriminate ].
Qed.

(** X3: on every batch of [n] options that quotes spots and no dividends,
    with at most one discount input and a flag equal to [True],
    [get_vanilla_prices] returns [n] prices, option [i] being
    [discount_factor * (forward * Phi(d1) - strike * Phi(d2))] on the
    parameters that lines 36-61 resolve for option [i]. *)
Theorem call_price_on_batches {A} `{NumLib A} (n : nat) (a : kwargs A) (s : tensor A) :
  batch n a ->
  spots a = Some s ->
  forwards a = None ->
  continuous_dividends a = None ->
  discount_rates a = None \/ discount_factors a = None ->
  py_eq_True (is_call_options a) = true ->
  get_vanilla_prices a = Ok (tab n (fun i => call_price (normalize (market_of a) i))).
Proof.
  intros Hb Hs Hf Hq Hrd Hflag.
  apply prices_call_batch; try assumption.
  apply check_exclusive_Ok_iff. rewrite Hs, Hf. repeat split; auto; discriminate.
Qed.

Lemma call_price_on_batches_witness :
  get_vanilla_prices
    (example_call (A := R) (Some [lit 100]) None (Some [lit 0.05]) None None None
                  (PyBool true))
  = Ok (tab 1 (fun i => call_price
                 (normalize
                    (market_of (example_call (A := R) (Some [lit 100]) None
                                  (Some [lit 0.05]) None None None (PyBool true))) i))).
Proof.
  apply (call_price_on_batches 1 _ [lit 100]).
  - repeat split.
  - reflexivity.
  - reflexivity.
  - reflexivity.
  - right. reflexivity.
  - reflexivity.
Defined.

(** X4: on every such batch that quotes discount factors, with a flag not
    equal to [True], [get_vanilla_prices] returns the put prices
    [discount_factor * (undiscounted_call - (forward - strike))]. *)
Theorem put_price_on_batches {A} `{NumLib A} (n : nat) (a : kwargs A) (s d : tensor A) :
  batch n a ->
  spots a = Some s ->
  forwards a = None ->
  continuous_dividends a = None ->
  discount_rates a = None ->
  discount_factors a = Some d ->
  py_eq_True (is_call_options a) = false ->
  get_vanilla_prices a = Ok (tab n (fun i => put_price (normalize (market_of a) i))).
Proof.
  intros Hb Hs Hf Hq Hr Hd Hflag.
  apply prices_put_batch with (d := d); try assumption.
  apply check_exclusive_Ok_iff. rewrite Hs, Hf. repeat split; auto; discriminate.
Qed.

Lemma put_price_on_batches_witness :
  get_vanilla_prices
    (example_call (A := R) (Some [lit 100]) None None None None (Some [lit 0.95])
                  (PyBool false))
  = Ok (tab 1 (fun i => put_price
                 (normalize
                    (market_of (example_call (A := R) (Some [lit 100]) None None None
                                  None (Some [lit 0.95]) (PyBool false))) i))).
Proof.
  apply (put_price_on_batches 1 _ [lit 100] [lit 0.95]).
  - repeat split.
  - reflexivity.
  - reflexivity.
  - reflexivity.
  - reflexivity.
  - reflexivity.
  - reflexivity.
Defined.

(** X5: on every batch that quotes spots, no dividends and no discount
    factors, a flag not equal to [True] makes [get_vanilla_prices] raise
    [TypeError]: line 72 multiplies [None] by a tensor.  So a put is priced
    only when [discount_factors] is supplied. *)
Theorem put_needs_discount_factors {A} `{NumLib A}
    (n : nat) (a : kwargs A) (s : tensor A) :
  batch n a ->
  spots a = Some s ->
  forwards a = None ->
  continuous_dividends a = None ->
  discount_factors a = None ->
  py_eq_True (is_call_options a) = false ->
  get_vanilla_prices a = Raise TypeError.
Proof.
  intros Hb Hs Hf Hq Hd Hflag.
  assert (Hchk : check_exclusive a = Ok tt).
  { apply check_exclusive_Ok_iff. rewrite Hs, Hf. repeat split; auto; discriminate. }
  rewrite <- (batch_kw n a Hb).
  apply prices_put_no_factors with (s := column s); try assumption.
  - now apply exclusive_market_of.
  - unfold market_of; simpl. now rewrite Hq.
  - unfold market_of; simpl. now rewrite Hs.
  - unfold market_of; simpl. now rewrite Hd.
Qed.

Lemma put_needs_discount_factors_witness :
  get_vanilla_prices
    (example_call (A := R) (Some [lit 100]) None None None (Some [lit 0.03]) None PyNone)
  = Raise TypeError.
Proof.
  apply (put_needs_discount_factors 1 _ [lit 100]).
  - repeat split.
  - reflexivity.
  - reflexivity.
  - reflexivity.
  - reflexivity.
  - reflexivity.
Defined.

(** X6: a call that supplies [continuous_dividends] never returns a
    result, from either function and whatever the other arguments are; it
    raises.  Lines 43-44 and 110-111 leave [t_continuous_dividends]
    unbound, and the only other way past lines 49 and 116, supplying
    [cost_of_carries] too, is rejected by the exclusivity check. *)
Theorem dividends_never_return {A} `{NumLib A}
    (greek : string) (a : kwargs A) (q : tensor A) :
  continuous_dividends a = Some q ->
  (exists e, get_vanilla_prices a = Raise e) /\
  (exists e, get_vanilla_greeks greek a = Raise e).
Proof.
  intros Hq. split.
  - pose proof (fun out => prices_dividends_never_return a q out Hq) as Hn.
    destruct (get_vanilla_prices a) as [out|e]; [now destruct (Hn out) | eauto].
  - pose proof (fun out => greeks_dividends_never_return greek a q out Hq) as Hn.
    destruct (get_vanilla_greeks greek a) as [out|e]; [now destruct (Hn out) | eauto].
Qed.

Lemma dividends_never_return_witness :
  (exists e,
     get_vanilla_prices
       (example_call (A := R) (Some [lit 100]) None None (Some [lit 0.02]) None None
                     (PyBool true)) = Raise e) /\
  (exists e,
     get_vanilla_greeks "delta"
       (example_call (A := R) (Some [lit 100]) None None (Some [lit 0.02]) None None
                     (PyBool true)) = Raise e).
Proof. apply (dividends_never_return "delta" _ [lit 0.02]). reflexivity. Defined.

(** X7: a call of [get_vanilla_prices] that supplies [forwards] never
    returns a price, whatever the other arguments are; it raises: either
    an earlier statement does, or line 58, which reads the unbound
    [t_spots]. *)
Theorem forwards_never_priced {A} `{NumLib A} (a : kwargs A) (f : tensor A) :
  forwards a = Some f ->
  exists e, get_vanilla_prices a = Raise e.
Proof.
  intros Hf.
  pose proof (fun out => prices_forwards_never_return a f out Hf) as Hn.
  destruct (get_vanilla_prices a) as [out|e]; [now destruct (Hn out) | eauto].
Qed.

Lemma forwards_never_priced_witness :
  exists e,
    get_vanilla_prices
      (example_call (A := R) None (Some [lit 100]) None None None None (PyBool true))
    = Raise e.
Proof. apply (forwards_never_priced _ [lit 100]). reflexivity. Defined.

(** X8: on every batch of [n] options without dividends, spot or forward
    quoted, at most one discount input, one of the five selectors and a
    flag that is [True] or [False], [get_vanilla_greeks] returns [n]
    values, option [i] being the value of the selected [return] (lines
    131-190) on the parameters that lines 103-128 resolve for option [i]. *)
Theorem greeks_on_batches {A} `{NumLib A}
    (n : nat) (a : kwargs A) (greek : string) (b : bool) :
  batch n a ->
  known_greek greek = true ->
  is_None (spots a) <> is_None (forwards a) ->
  discount_rates a = None \/ discount_factors a = None ->
  continuous_dividends a = None ->
  is_call_options a = PyBool b ->
  get_vanilla_greeks greek a
  = Ok (Some (tab n (fun i => greek_value greek b (normalize (market_of a) i)))).
Proof.
  intros Hb Hg Hsf Hrd Hq Hflag.
  apply greeks_batch; try assumption.
  apply check_exclusive_Ok_iff. repeat split; auto.
Qed.

Lemma greeks_on_batches_witness :
  get_vanilla_greeks "theta"
    (example_call (A := R) None (Some [lit 100]) (Some [lit 0.05]) None None None
                  (PyBool false))
  = Ok (Some (tab 1 (fun i => greek_value "theta" false
                (normalize
                   (market_of (example_call (A := R) None (Some [lit 100])
                                 (Some [lit 0.05]) None None None (PyBool false))) i)))).
Proof.
  apply (greeks_on_batches 1 _ "theta" false).
  - repeat split.
  - reflexivity.
  - discriminate.
  - right. reflexivity.
  - reflexivity.
  - reflexivity.
Defined.

(** X9: with one of the five selectors and a flag that is [True] or
    [False], [get_vanilla_greeks] never raises the [ValueError] of line
    192, whatever the other arguments are. *)
Theorem flag_error_unreachable {A} `{NumLib A}
    (greek : string) (a : kwargs A) (b : bool) :
  known_greek greek = true ->
  is_call_options a = PyBool b ->
  get_vanilla_greeks greek a
  <> Raise (ValueError "Variable 'is_call_options' can only be Booleans ").
Proof. intros Hg Hb. now apply bool_error_unreachable with (b := b). Qed.

Lemma flag_error_unreachable_witness :
  get_vanilla_greeks "rho"
    (example_call (A := R) (Some [lit 100]) None None None None None (PyBool false))
  <> Raise (ValueError "Variable 'is_call_options' can only be Booleans ").
Proof. apply (flag_error_unreachable "rho" _ false); reflexivity. Defined.

(** X10: [get_vanilla_greeks] checks the flag last.  On every batch that
    passes the selector and exclusivity checks and quotes no dividends, a
    flag that equals neither [True] nor [False] (a string, [None], an
    integer other than 0 and 1) raises the [ValueError] of line 192. *)
Theorem greeks_rejects_other_flags {A} `{NumLib A}
    (n : nat) (a : kwargs A) (greek : string) :
  batch n a ->
  known_greek greek = true ->
  is_None (spots a) <> is_None (forwards a) ->
  discount_rates a = None \/ discount_factors a = None ->
  continuous_dividends a = None ->
  py_eq_True (is_call_options a) = false ->
  py_eq_False (is_call_options a) = false ->
  get_vanilla_greeks greek a
  = Raise (ValueError "Variable 'is_call_options' can only be Booleans ").
Proof.
  intros Hb Hg Hsf Hrd Hq Ht Hf.
  assert (Hchk : check_exclusive a = Ok tt)
    by (apply check_exclusive_Ok_iff; repeat split; auto).
  rewrite <- (batch_kw n a Hb).
  apply greeks_flag_rejected; try assumption.
  - now apply exclusive_market_of.
  - unfold market_of; simpl. now rewrite Hq.
Qed.

Lemma greeks_rejects_other_flags_witness :
  get_vanilla_greeks "delta"
    (example_call (A := R) (Some [lit 100]) None None None None None (PyInt 2))
  = Raise (ValueError "Variable 'is_call_options' can only be Booleans ").
Proof.
  apply (greeks_rejects_other_flags 1).
  - repeat split.
  - reflexivity.
  - discriminate.
  - left. reflexivity.
  - reflexivity.
  - reflexivity.
  - reflexivity.
Defined.

(** X11: [get_vanilla_prices] treats every flag that is not equal to
    [True] as a put: with such a flag the call does exactly what it does
    with [is_call_options = False], result or exception (lines 67-72). *)
Theorem prices_other_flags_are_puts {A} `{NumLib A} (a : kwargs A) (flag : pyval) :
  py_eq_True flag = false ->
  get_vanilla_prices (with_flag a flag) = get_vanilla_prices (with_flag a (PyBool false)).
Proof.
  intros Hflag. unfold get_vanilla_prices, prices_kernel.
  cbn [is_call_options with_flag py_eq_True]. now rewrite Hflag.
Qed.

Lemma prices_other_flags_are_puts_witness :
  get_vanilla_prices
    (with_flag (example_call (A := R) (Some [lit 100]) None None None None
                             (Some [lit 0.95]) (PyBool true)) (PyStr "call"))
  = get_vanilla_prices
      (with_flag (example_call (A := R) (Some [lit 100]) None None None None
                               (Some [lit 0.95]) (PyBool true)) (PyBool false)).
Proof. apply prices_other_flags_are_puts. reflexivity. Defined.

(** X12: no Greek depends on the discount inputs once [cost_of_carries]
    is supplied: two calls on the same batch that differ only in
    [discount_rates] and [discount_factors] return the same values. *)
Theorem greeks_ignore_discounting {A} `{NumLib A}
    (n : nat) (m : market A) (c : nat -> A)
    (r d r' d' : option (nat -> A)) (greek : string) (b : bool) :
  known_greek greek = true ->
  is_None (m_spots m) <> is_None (m_forwards m) ->
  m_dividends m = None ->
  m_carries m = Some c ->
  r = None \/ d = None ->
  r' = None \/ d' = None ->
  get_vanilla_greeks greek (kw n (with_discounting m r d) (PyBool b))
  = get_vanilla_greeks greek (kw n (with_discounting m r' d') (PyBool b)).
Proof.
  intros Hg Hsf Hq Hc Hrd Hrd'.
  rewrite !greeks_bool; try assumption; try (repeat split; simpl; auto).
  do 2 f_equal. apply tab_ext. intros i _.
  destruct m as [K v T s f r0 q c0 d0]; simpl in *; subst.
  apply greek_value_discounting; reflexivity.
Qed.

Lemma greeks_ignore_discounting_witness :
  get_vanilla_greeks "rho"
    (kw 1 (with_discounting
             (example_market (A := R) (Some (lit 100)) None None None
                             (Some (lit 0.03)) None)
             (Some (fun _ => lit 0.05)) None) (PyBool true))
  = get_vanilla_greeks "rho"
      (kw 1 (with_discounting
               (example_market (A := R) (Some (lit 100)) None None None
                               (Some (lit 0.03)) None)
               None (Some (fun _ => lit 0.95))) (PyBool true)).
Proof.
  apply (greeks_ignore_discounting 1 _ (fun _ => lit 0.03)).
  - reflexivity.
  - discriminate.
  - reflexivity.
  - reflexivity.
  - right. reflexivity.
  - left. reflexivity.
Defined.

Section RealProperties.
Local Open Scope R_scope.











Lemma Q2R_0 : Q2R 0 = 0.
Proof. unfold Q2R; simpl. lra. Qed.

Lemma Q2R_2 : Q2R 2 = 2.
Proof. unfold Q2R; simpl. lra. Qed.





End RealProperties.
